(** * CooldownUsable: the cooldown state machine of the parser core

    A shallow embedding of [src/Parser/Core/Modules/CooldownUsable.js].

    - JavaScript numbers (timestamps, durations in milliseconds, charge
      counts) are integers [Z]; spell ids are natural numbers [N].
    - [null]/[undefined] are [None]; the falsy-or [a || b] on an optional
      number is [js_or].
    - The object [_currentCooldowns] is a finite map from spell id to its
      record; [Object.keys] lists integer-like keys in ascending order.
    - A method is a function from the module state to a completion
      ([Return v] or [Throw e]) and the state it leaves behind; a throw
      keeps whatever was mutated before it.
    - [owner.triggerEvent] and the [console] calls append to two logs kept
      in the state, so that each path taken is observable. *)

From stdpp Require Import gmap list sorting.
From Equations Require Import Equations.

Open Scope Z_scope.

(** ** Data model *)

(** One entry of [_currentCooldowns]. *)
Record Cooldown := mkCooldown {
  start : Z;
  expectedEnd : Z;
  charges : Z;
}.

(** The names passed to [owner.triggerEvent]. *)
Inductive EventType :=
  | startcooldown
  | startcooldowncharge
  | refreshcooldown
  | finishcooldown.

(** What the module writes on the console ([debug] is the constant
    [true]).  Each constructor carries the spell id and the numbers the
    message prints; the formatted fight duration and the spell name are
    left out. *)
Inductive Diagnostic :=
  | WarnNoCooldown (spellId : N)
  | LogCooldownStarted (spellId : N) (chargesOnCooldown : Z)
  | LogUsedAnotherCharge (spellId : N) (chargesOnCooldown : Z)
  | ErrorCastWhileOnCooldown
      (spellId : N) (timePassed : Z) (remaining : option Z) (duration : Z)
  | LogCooldownFinished (spellId : N).

(** The two [Error]s the module throws itself, and the [TypeError] that
    reading a property of [undefined] raises. *)
Inductive Exception :=
  | FinishNotOnCooldown (spellId : N)
  | RefreshNotOnCooldown (spellId : N)
  | TypeError.

(** The [CastEfficiency] dependency: the ability catalog. *)
Record CastEfficiency := mkCastEfficiency {
  getMaxCharges : N -> Z;
  getExpectedCooldownDuration : N -> option Z;
}.

(** The module instance together with the parts of [owner] it touches. *)
Record State := mkState {
  currentTimestamp : Z;
  _currentCooldowns : gmap N Cooldown;
  triggered : list (EventType * N);
  console : list Diagnostic;
}.

(** The events handed to [on_byPlayer_cast] and [on_event]: custom events
    may lack [timestamp], non-cast events lack [ability.guid]. *)
Record Event := mkEvent {
  timestamp : option Z;
  ability_guid : option N;
}.

(** What the parser and the other modules do to this one; [Advance] is the
    parser moving [owner.currentTimestamp]. *)
Inductive Call :=
  | CallStartCooldown (spellId : N) (overrideDurationMs : option Z)
  | CallFinishCooldown (spellId : N) (resetAllCharges : bool)
  | CallRefreshCooldown (spellId : N) (overrideDurationMs : option Z)
  | CallReduceCooldown (spellId : N) (durationMs : Z)
  | CallOnByPlayerCast (event : Event)
  | CallOnEvent (event : option Event)
  | Advance (now : Z).

#[global] Instance EventType_eq_dec : EqDecision EventType.
Proof. solve_decision. Defined.

#[global] Instance Cooldown_eq_dec : EqDecision Cooldown.
Proof. solve_decision. Defined.

(** ** Completions and the state monad *)

Inductive Completion (A : Type) :=
  | Return (v : A)
  | Throw (e : Exception).
Arguments Return {A} v.
Arguments Throw {A} e.

Definition M (A : Type) : Type := State -> Completion A * State.

Definition ret {A} (v : A) : M A := fun s => (Return v, s).

Definition throw {A} (e : Exception) : M A := fun s => (Throw e, s).

Definition bind {A B} (m : M A) (k : A -> M B) : M B :=
  fun s =>
    match m s with
    | (Return v, s') => k v s'
    | (Throw e, s') => (Throw e, s')
    end.

(** The state a command leaves behind, thrown or not. *)
Definition exec {A} (m : M A) (s : State) : State := snd (m s).

Declare Scope js_scope.
Delimit Scope js_scope with js.
Notation "'let*' x := m 'in' k" := (bind m (fun x => k))
  (at level 10, x name, m at level 100, k at level 200) : js_scope.
Notation "m ;; k" := (bind m (fun _ => k))
  (at level 100, k at level 200, right associativity) : js_scope.

(** Case analysis that remembers which case was taken. *)
Definition inspect {A : Type} (x : A) : {y : A | x = y} := exist _ x eq_refl.

(** ** Primitive state accesses *)

Definition set_cooldowns (f : gmap N Cooldown -> gmap N Cooldown) (s : State)
  : State :=
  mkState (currentTimestamp s) (f (_currentCooldowns s))
          (triggered s) (console s).

(** [owner.triggerEvent(name, spellId)]: the notification is recorded.
    Its listeners are the other modules, which do not write to
    [_currentCooldowns]. *)
Definition triggerEvent (name : EventType) (spellId : N) : M unit :=
  fun s =>
    (Return tt,
     mkState (currentTimestamp s) (_currentCooldowns s)
             (triggered s ++ [(name, spellId)]) (console s)).

(** [console.warn], [console.log] and [console.error]. *)
Definition console_write (d : Diagnostic) : M unit :=
  fun s =>
    (Return tt,
     mkState (currentTimestamp s) (_currentCooldowns s)
             (triggered s) (console s ++ [d])).

(** Reading [this._currentCooldowns[spellId]] in order to use one of its
    properties: a [TypeError] when the entry is missing. *)
Definition getCooldown (spellId : N) : M Cooldown :=
  fun s =>
    match _currentCooldowns s !! spellId with
    | Some c => (Return c, s)
    | None => (Throw TypeError, s)
    end.

(** Assigning to a property of [this._currentCooldowns[spellId]]. *)
Definition modifyCooldown (spellId : N) (f : Cooldown -> Cooldown) : M unit :=
  fun s =>
    match _currentCooldowns s !! spellId with
    | Some c => (Return tt, set_cooldowns (insert spellId (f c)) s)
    | None => (Throw TypeError, s)
    end.

(** [this._currentCooldowns[spellId] = c]. *)
Definition setCooldown (spellId : N) (c : Cooldown) : M unit :=
  fun s => (Return tt, set_cooldowns (insert spellId c) s).

(** [delete this._currentCooldowns[spellId]]. *)
Definition deleteCooldown (spellId : N) : M unit :=
  fun s => (Return tt, set_cooldowns (delete spellId) s).

(** Unfolds the monad and the primitive accesses. *)
Ltac unfold_m :=
  unfold bind, ret, throw, getCooldown, modifyCooldown, setCooldown,
    deleteCooldown, console_write, triggerEvent, set_cooldowns in *.

(** ** Falsy-or on optional numbers *)

(** [!!v] for a number, [null] or [undefined]. *)
Definition truthy (v : option Z) : bool :=
  match v with
  | Some d => negb (d =? 0)
  | None => false
  end.

(** [a || b]. *)
Definition js_or (a b : option Z) : option Z :=
  if truthy a then a else b.

(** The number behind a value that passed the [!v] test, if it did. *)
Definition nonzero (v : option Z) : option Z :=
  if truthy v then v else None.

(** ** Sample catalogs, states and calls *)

(** Every spell has two charges and a cooldown of one second. *)
Definition twoCharges : CastEfficiency :=
  mkCastEfficiency (fun _ => 2) (fun _ => Some 1000).

(** Every spell has one charge and a cooldown of one second. *)
Definition oneCharge : CastEfficiency :=
  mkCastEfficiency (fun _ => 1) (fun _ => Some 1000).

(** No spell has a cooldown. *)
Definition noCooldowns : CastEfficiency :=
  mkCastEfficiency (fun _ => 1) (fun _ => None).

(** A catalog that gives no spell any charge. *)
Definition zeroCharges : CastEfficiency :=
  mkCastEfficiency (fun _ => 0) (fun _ => Some 1000).

(** A fresh module at time [now]. *)
Definition idle (now : Z) : State := mkState now ∅ [] [].

(** A module tracking one spell at time [now]. *)
Definition tracking (now : Z) (spellId : N) (c : Cooldown) : State :=
  mkState now {[ spellId := c ]} [] [].

(** The scenario of two casts of a two-charge spell followed by an event
    one millisecond after the first charge is due. *)
Definition scenario : list Call :=
  [ CallOnByPlayerCast (mkEvent (Some 0) (Some 7%N));
    Advance 100;
    CallOnByPlayerCast (mkEvent (Some 100) (Some 7%N));
    Advance 1001;
    CallOnEvent (Some (mkEvent (Some 1001) None)) ].

(** ** The module *)

Section CooldownUsable.

Context (castEfficiency : CastEfficiency).

Open Scope js_scope.

Definition isOnCooldown (s : State) (spellId : N) : bool :=
  match _currentCooldowns s !! spellId with
  | Some _ => true
  | None => false
  end.

(** [maxCharges > charges] is written [charges <? maxCharges]. *)
Definition isAvailable (s : State) (spellId : N) : bool :=
  match _currentCooldowns s !! spellId with
  | Some c =>
      let maxCharges := getMaxCharges castEfficiency spellId in
      if charges c <? maxCharges then true else false
  | None => true
  end.

Definition cooldownRemaining (s : State) (spellId : N) : option Z :=
  match _currentCooldowns s !! spellId with
  | None => None
  | Some c => Some (expectedEnd c - currentTimestamp s)
  end.

Definition refreshCooldown (spellId : N) (overrideDurationMs : option Z)
  : M unit :=
  fun s =>
    if negb (isOnCooldown s spellId) then
      throw (RefreshNotOnCooldown spellId) s
    else
      let expectedCooldownDuration :=
        js_or overrideDurationMs
              (getExpectedCooldownDuration castEfficiency spellId) in
      match nonzero expectedCooldownDuration with
      | None => console_write (WarnNoCooldown spellId) s
      | Some d =>
          (modifyCooldown spellId
             (fun c => mkCooldown (start c) (currentTimestamp s + d)
                                  (charges c)) ;;
           triggerEvent refreshcooldown spellId) s
      end.

Definition finishCooldown (spellId : N) (resetAllCharges : bool) : M unit :=
  fun s =>
    if negb (isOnCooldown s spellId) then
      throw (FinishNotOnCooldown spellId) s
    else
      (let* c := getCooldown spellId in
       (if (charges c =? 1) || resetAllCharges then
          deleteCooldown spellId
        else
          modifyCooldown spellId
            (fun c => mkCooldown (start c) (expectedEnd c) (charges c - 1)) ;;
          refreshCooldown spellId None) ;;
       console_write (LogCooldownFinished spellId) ;;
       triggerEvent finishcooldown spellId) s.

(** A record after [refreshCooldown] without override: re-armed from the
    current timestamp when the catalog has a duration, else as it was. *)
Definition rearmed (now : Z) (duration : option Z) (c : Cooldown)
  : Cooldown :=
  match nonzero duration with
  | Some d => mkCooldown (start c) (now + d) (charges c)
  | None => c
  end.

(** A record after [charges -= 1]. *)
Definition uncharged (c : Cooldown) : Cooldown :=
  mkCooldown (start c) (expectedEnd c) (charges c - 1).

(** How far the record of [spellId] is above the configured maximum:
    what the retry of [startCooldown] consumes. *)
Definition saturation (spellId : N) (s : State) : nat :=
  match _currentCooldowns s !! spellId with
  | None => 0%nat
  | Some c => Z.to_nat (charges c - getMaxCharges castEfficiency spellId + 1)
  end.

(** The diagnostic of the last branch of [startCooldown], followed by the
    call of [finishCooldown] that precedes the retry. *)
Definition reportAndFinish (spellId : N) : M unit :=
  fun s =>
    (let* c := getCooldown spellId in
     console_write
       (ErrorCastWhileOnCooldown spellId
          (currentTimestamp s - start c)
          (cooldownRemaining s spellId)
          (expectedEnd c - start c)) ;;
     finishCooldown spellId false) s.

(** *** The calls made on a tracked spell, and why the retry ends *)

Lemma refreshCooldown_tracked s spellId overrideDurationMs c :
  _currentCooldowns s !! spellId = Some c ->
  refreshCooldown spellId overrideDurationMs s =
    match nonzero (js_or overrideDurationMs
                     (getExpectedCooldownDuration castEfficiency spellId)) with
    | None => console_write (WarnNoCooldown spellId) s
    | Some d =>
        triggerEvent refreshcooldown spellId
          (set_cooldowns
             (insert spellId
                (mkCooldown (start c) (currentTimestamp s + d) (charges c)))
             s)
    end.
Proof.
  intros Hc. unfold refreshCooldown, isOnCooldown. rewrite Hc. cbn.
  destruct (nonzero _); [|done]. unfold_m. by rewrite Hc.
Qed.

Lemma finishCooldown_tracked s spellId resetAllCharges c :
  _currentCooldowns s !! spellId = Some c ->
  finishCooldown spellId resetAllCharges s =
    if (charges c =? 1) || resetAllCharges then
      (console_write (LogCooldownFinished spellId) ;;
       triggerEvent finishcooldown spellId)
        (set_cooldowns (delete spellId) s)
    else
      (refreshCooldown spellId None ;;
       console_write (LogCooldownFinished spellId) ;;
       triggerEvent finishcooldown spellId)
        (set_cooldowns (insert spellId (uncharged c)) s).
Proof.
  intros Hc. unfold finishCooldown, isOnCooldown. rewrite Hc. cbn.
  unfold bind at 1, getCooldown. rewrite Hc.
  destruct ((charges c =? 1) || resetAllCharges); [done|].
  unfold bind at 1 2, modifyCooldown. rewrite Hc. done.
Qed.

(** What [finishCooldown] leaves in the store for the spell it finishes. *)
Lemma finishCooldown_lookup s spellId resetAllCharges c :
  _currentCooldowns s !! spellId = Some c ->
  fst (finishCooldown spellId resetAllCharges s) = Return tt /\
  _currentCooldowns (exec (finishCooldown spellId resetAllCharges) s)
    !! spellId =
    if (charges c =? 1) || resetAllCharges then None
    else Some (rearmed (currentTimestamp s)
                 (getExpectedCooldownDuration castEfficiency spellId)
                 (uncharged c)).
Proof.
  intros Hc. unfold exec. rewrite (finishCooldown_tracked _ _ _ _ Hc).
  destruct ((charges c =? 1) || resetAllCharges).
  - unfold_m. cbn. by rewrite lookup_delete_eq.
  - unfold bind at 1 3.
    erewrite refreshCooldown_tracked
      by (unfold set_cooldowns; cbn; apply lookup_insert_eq).
    unfold rearmed, js_or. cbn.
    destruct (nonzero _); unfold_m; cbn; by rewrite ?lookup_insert_eq.
Qed.

(** On a tracked spell [reportAndFinish] is the diagnostic followed by
    [finishCooldown]. *)
Lemma reportAndFinish_tracked s spellId c :
  _currentCooldowns s !! spellId = Some c ->
  reportAndFinish spellId s =
    finishCooldown spellId false
      (exec (console_write
               (ErrorCastWhileOnCooldown spellId
                  (currentTimestamp s - start c)
                  (cooldownRemaining s spellId)
                  (expectedEnd c - start c))) s).
Proof.
  intros Hc. unfold reportAndFinish, bind at 1, getCooldown. by rewrite Hc.
Qed.

Lemma reportAndFinish_lookup s spellId c :
  _currentCooldowns s !! spellId = Some c ->
  fst (reportAndFinish spellId s) = Return tt /\
  _currentCooldowns (exec (reportAndFinish spellId) s) !! spellId =
    if charges c =? 1 then None
    else Some (rearmed (currentTimestamp s)
                 (getExpectedCooldownDuration castEfficiency spellId)
                 (uncharged c)).
Proof.
  intros Hc.
  change (exec (reportAndFinish spellId) s)
    with (snd (reportAndFinish spellId s)).
  rewrite (reportAndFinish_tracked _ _ _ Hc).
  rewrite <- (orb_false_r (charges c =? 1)).
  set (s1 := exec (console_write _) s).
  exact (finishCooldown_lookup s1 spellId false c Hc).
Qed.

(** A saturated spell: the retry of [startCooldown] runs on a state that
    is strictly less saturated, and the call before it does not throw. *)
Lemma reportAndFinish_decreases s spellId :
  isOnCooldown s spellId = true ->
  isAvailable s spellId = false ->
  fst (reportAndFinish spellId s) = Return tt /\
  (saturation spellId (exec (reportAndFinish spellId) s)
   < saturation spellId s)%nat.
Proof.
  unfold isOnCooldown, isAvailable, saturation.
  destruct (_currentCooldowns s !! spellId) as [c|] eqn:Hc; [|done].
  intros _ Hav. destruct (reportAndFinish_lookup s spellId c Hc) as [Hr Hl].
  split; [done|]. rewrite Hl.
  destruct (Z.ltb_spec (charges c) (getMaxCharges castEfficiency spellId));
    [done|].
  destruct (charges c =? 1); [lia|].
  unfold rearmed, uncharged. destruct (nonzero _); cbn; lia.
Qed.

Equations? startCooldown (spellId : N) (overrideDurationMs : option Z)
    (s : State) : Completion unit * State
    by wf (saturation spellId s) lt :=
  startCooldown spellId overrideDurationMs s
    with nonzero (js_or overrideDurationMs
                    (getExpectedCooldownDuration castEfficiency spellId)) := {
    | None => console_write (WarnNoCooldown spellId) s
    | Some expectedCooldownDuration
        with inspect (isOnCooldown s spellId) := {
        | exist _ false _ =>
            (setCooldown spellId
               (mkCooldown (currentTimestamp s)
                  (currentTimestamp s + expectedCooldownDuration) 1) ;;
             let* c := getCooldown spellId in
             console_write (LogCooldownStarted spellId (charges c)) ;;
             triggerEvent startcooldown spellId) s
        | exist _ true Hon with inspect (isAvailable s spellId) := {
            | exist _ true _ =>
                (modifyCooldown spellId
                   (fun c =>
                      mkCooldown (start c) (expectedEnd c) (charges c + 1)) ;;
                 let* c := getCooldown spellId in
                 console_write (LogUsedAnotherCharge spellId (charges c)) ;;
                 triggerEvent startcooldowncharge spellId) s
            | exist _ false Hav with inspect (reportAndFinish spellId s) := {
                | exist _ (Throw e, s') _ => (Throw e, s')
                | exist _ (Return _, s') Hfin =>
                    startCooldown spellId overrideDurationMs s' } } } }.
Proof.
  destruct (reportAndFinish_decreases s spellId Hon Hav) as [_ Hlt].
  unfold exec in Hlt. by rewrite Hfin in Hlt.
Qed.

(** [null < durationMs] compares [0]. *)
Definition js_lt (a : option Z) (b : Z) : bool :=
  match a with
  | Some x => x <? b
  | None => 0 <? b
  end.

Definition reduceCooldown (spellId : N) (durationMs : Z) : M (option Z) :=
  fun s =>
    if negb (isOnCooldown s spellId) then ret None s
    else
      let cooldownRemaining := cooldownRemaining s spellId in
      if js_lt cooldownRemaining durationMs then
        (finishCooldown spellId false ;;
         ret cooldownRemaining) s
      else
        (modifyCooldown spellId
           (fun c =>
              mkCooldown (start c) (expectedEnd c - durationMs) (charges c)) ;;
         ret (Some durationMs)) s.

(** [event.ability.guid] of an event without one is a [TypeError]. *)
Definition on_byPlayer_cast (event : Event) : M unit :=
  match ability_guid event with
  | Some spellId => startCooldown spellId None
  | None => throw TypeError
  end.

(** [Object.keys(this._currentCooldowns)]: the spell ids, ascending. *)
Definition objectKeys (m : gmap N Cooldown) : list N :=
  merge_sort N.le (map fst (map_to_list m)).

Fixpoint forEach {A} (l : list A) (f : A -> M unit) : M unit :=
  match l with
  | [] => ret tt
  | x :: l' => f x ;; forEach l' f
  end.

(** [timestamp > expectedEnd], false when [timestamp] is [undefined]. *)
Definition js_gt (a : option Z) (b : Z) : bool :=
  match a with
  | Some x => b <? x
  | None => false
  end.

(** The callback of the sweep. *)
Definition sweepOne (ts : option Z) (spellId : N) : M unit :=
  let* activeCooldown := getCooldown spellId in
  if js_gt ts (expectedEnd activeCooldown) then
    finishCooldown spellId false
  else ret tt.

(** [event] is [None] when the custom event carries nothing. *)
Definition on_event (event : option Event) : M unit :=
  fun s =>
    match event with
    | None => ret tt s
    | Some event =>
        forEach (objectKeys (_currentCooldowns s))
                (sweepOne (timestamp event)) s
    end.

(** *** Driving the module *)

(** The state after a call; a call that throws leaves what it had done
    up to the throw. *)
Definition call (c : Call) (s : State) : State :=
  match c with
  | CallStartCooldown spellId o => exec (startCooldown spellId o) s
  | CallFinishCooldown spellId r => exec (finishCooldown spellId r) s
  | CallRefreshCooldown spellId o => exec (refreshCooldown spellId o) s
  | CallReduceCooldown spellId d => exec (reduceCooldown spellId d) s
  | CallOnByPlayerCast e => exec (on_byPlayer_cast e) s
  | CallOnEvent e => exec (on_event e) s
  | Advance now =>
      mkState now (_currentCooldowns s) (triggered s) (console s)
  end.

Definition run (cs : list Call) (s : State) : State :=
  foldl (fun s c => call c s) s cs.

(** Whether a call hands [spellId] to [startCooldown]. *)
Definition starts (spellId : N) (c : Call) : bool :=
  match c with
  | CallStartCooldown x _ => bool_decide (x = spellId)
  | CallOnByPlayerCast e => bool_decide (ability_guid e = Some spellId)
  | _ => false
  end.

(** [n] calls of [startCooldown(spellId)] in a row. *)
Definition startCooldownTimes (n : nat) (spellId : N) (s : State) : State :=
  Nat.iter n (exec (startCooldown spellId None)) s.

(** The store invariant: every record holds between one charge and the
    configured maximum. *)
Definition charges_in_range (s : State) : Prop :=
  forall spellId c,
    _currentCooldowns s !! spellId = Some c ->
    1 <= charges c <= getMaxCharges castEfficiency spellId.

(** The effective duration of a call. *)
Definition resolved (spellId : N) (overrideDurationMs : option Z)
  : option Z :=
  nonzero (js_or overrideDurationMs
             (getExpectedCooldownDuration castEfficiency spellId)).

(** What one charge finishing leaves of a record: nothing after the last
    charge, else the record one charge down and re-armed. *)
Definition finished (now : Z) (spellId : N) (resetAllCharges : bool)
    (c : Cooldown) : option Cooldown :=
  if (charges c =? 1) || resetAllCharges then None
  else Some (rearmed now
               (getExpectedCooldownDuration castEfficiency spellId)
               (uncharged c)).

(** The notifications and console lines of [finishCooldown]. *)
Definition finishNotes (spellId : N) (resetAllCharges : bool) (c : Cooldown)
  : list (EventType * N) :=
  (if (charges c =? 1) || resetAllCharges then []
   else match nonzero (getExpectedCooldownDuration castEfficiency spellId) with
        | Some _ => [(refreshcooldown, spellId)]
        | None => []
        end) ++ [(finishcooldown, spellId)].

Definition finishLines (spellId : N) (resetAllCharges : bool) (c : Cooldown)
  : list Diagnostic :=
  (if (charges c =? 1) || resetAllCharges then []
   else match nonzero (getExpectedCooldownDuration castEfficiency spellId) with
        | Some _ => []
        | None => [WarnNoCooldown spellId]
        end) ++ [LogCooldownFinished spellId].

(** What the sweep of an event leaves of a record. *)
Definition swept (ts : option Z) (now : Z) (spellId : N) (c : Cooldown)
  : option Cooldown :=
  if js_gt ts (expectedEnd c) then finished now spellId false c else Some c.

(** The spells a list of notifications reports as finished. *)
Definition finishedSpells (l : list (EventType * N)) : list N :=
  omap (fun n => match fst n with
                 | finishcooldown => Some (snd n)
                 | _ => None
                 end) l.

(** What the sweep publishes for one record. *)
Definition sweepNotes (ts : option Z) (spellId : N) (c : Cooldown)
  : list (EventType * N) :=
  if js_gt ts (expectedEnd c) then finishNotes spellId false c else [].

(** Whether the sweep of an event finds the cooldown of a spell over. *)
Definition expired (ts : option Z) (s : State) (spellId : N) : bool :=
  match _currentCooldowns s !! spellId with
  | Some c => js_gt ts (expectedEnd c)
  | None => false
  end.

(** What a call may do to the store: keep every record in range, and
    create no record except for the spell it starts. *)
Definition sound_step (started : option N) (s s' : State) : Prop :=
  (charges_in_range s -> charges_in_range s') /\
  (forall k,
     started <> Some k ->
     _currentCooldowns s !! k = None -> _currentCooldowns s' !! k = None).

(** Every record holds at least one charge. *)
Definition positive_charges (s : State) : Prop :=
  forall spellId c, _currentCooldowns s !! spellId = Some c -> 1 <= charges c.

(** How the record of a spell may change under a call that does not start
    its cooldown: it may go or stay, with the same [start], no more
    charges, and at least one charge if it had one. *)
Definition shrinks (o o' : option Cooldown) : Prop :=
  match o' with
  | None => True
  | Some c' =>
      exists c, o = Some c /\ start c' = start c /\
                charges c' <= charges c /\
                (1 <= charges c -> 1 <= charges c')
  end.

(** ** Properties *)

(** The definition read back as the method body: the last branch is the
    diagnostic, [finishCooldown], and the same call again. *)
Lemma startCooldown_body spellId overrideDurationMs s :
  startCooldown spellId overrideDurationMs s =
    match nonzero (js_or overrideDurationMs
                     (getExpectedCooldownDuration castEfficiency spellId)) with
    | None => console_write (WarnNoCooldown spellId) s
    | Some expectedCooldownDuration =>
        if negb (isOnCooldown s spellId) then
          (setCooldown spellId
             (mkCooldown (currentTimestamp s)
                (currentTimestamp s + expectedCooldownDuration) 1) ;;
           let* c := getCooldown spellId in
           console_write (LogCooldownStarted spellId (charges c)) ;;
           triggerEvent startcooldown spellId) s
        else if isAvailable s spellId then
          (modifyCooldown spellId
             (fun c => mkCooldown (start c) (expectedEnd c) (charges c + 1)) ;;
           let* c := getCooldown spellId in
           console_write (LogUsedAnotherCharge spellId (charges c)) ;;
           triggerEvent startcooldowncharge spellId) s
        else
          (reportAndFinish spellId ;;
           startCooldown spellId overrideDurationMs) s
    end.
Proof.
  rewrite startCooldown_equation_1.
  destruct (nonzero _) as [d|]; simp startCooldown; [|done].
  match goal with |- _ = ?r => remember r as body eqn:Hbody end.
  destruct (inspect (isOnCooldown s spellId)) as [[] Hon];
    simp startCooldown; [|subst body; by rewrite Hon].
  destruct (inspect (isAvailable s spellId)) as [[] Hav];
    simp startCooldown; [subst body; by rewrite Hon, Hav|].
  destruct (inspect (reportAndFinish spellId s)) as [[[v|e] s'] Hfin];
    simp startCooldown; subst body; rewrite Hon, Hav; cbn;
    rewrite <- ?startCooldown_equation_1; unfold bind; by rewrite Hfin.
Qed.

(** Induction along the retries of [startCooldown]. *)
Lemma saturation_ind (spellId : N) (P : State -> Prop) :
  (forall s,
     (isOnCooldown s spellId = true ->
      isAvailable s spellId = false ->
      P (exec (reportAndFinish spellId) s)) ->
     P s) ->
  forall s, P s.
Proof.
  intros Hstep s.
  remember (saturation spellId s) as n eqn:Hn. revert s Hn.
  induction n as [n IHn] using lt_wf_ind. intros s ->.
  apply Hstep. intros Hon Hav.
  destruct (reportAndFinish_decreases s spellId Hon Hav) as [_ Hlt].
  by eapply IHn.
Qed.

(** *** The four paths of [startCooldown] *)

Lemma startCooldown_unresolved s spellId o :
  resolved spellId o = None ->
  startCooldown spellId o s =
    (Return tt,
     mkState (currentTimestamp s) (_currentCooldowns s) (triggered s)
             (console s ++ [WarnNoCooldown spellId])).
Proof.
  unfold resolved. intros Hd. rewrite startCooldown_body, Hd. done.
Qed.

Lemma startCooldown_free s spellId o d :
  resolved spellId o = Some d ->
  _currentCooldowns s !! spellId = None ->
  startCooldown spellId o s =
    (Return tt,
     mkState (currentTimestamp s)
       (<[spellId := mkCooldown (currentTimestamp s)
                       (currentTimestamp s + d) 1]> (_currentCooldowns s))
       (triggered s ++ [(startcooldown, spellId)])
       (console s ++ [LogCooldownStarted spellId 1])).
Proof.
  unfold resolved. intros Hd Hc.
  rewrite startCooldown_body, Hd. unfold isOnCooldown. rewrite Hc. cbn.
  unfold_m. cbn. by rewrite lookup_insert_eq.
Qed.

Lemma startCooldown_spare s spellId o d c :
  resolved spellId o = Some d ->
  _currentCooldowns s !! spellId = Some c ->
  charges c < getMaxCharges castEfficiency spellId ->
  startCooldown spellId o s =
    (Return tt,
     mkState (currentTimestamp s)
       (<[spellId := mkCooldown (start c) (expectedEnd c) (charges c + 1)]>
          (_currentCooldowns s))
       (triggered s ++ [(startcooldowncharge, spellId)])
       (console s ++ [LogUsedAnotherCharge spellId (charges c + 1)])).
Proof.
  unfold resolved. intros Hd Hc Hlt.
  rewrite startCooldown_body, Hd. unfold isOnCooldown, isAvailable.
  rewrite Hc. cbn. apply Z.ltb_lt in Hlt. rewrite Hlt.
  unfold_m. rewrite Hc. cbn. by rewrite lookup_insert_eq.
Qed.

Lemma startCooldown_retry s spellId o d c :
  resolved spellId o = Some d ->
  _currentCooldowns s !! spellId = Some c ->
  getMaxCharges castEfficiency spellId <= charges c ->
  fst (reportAndFinish spellId s) = Return tt /\
  startCooldown spellId o s =
    startCooldown spellId o (exec (reportAndFinish spellId) s).
Proof.
  unfold resolved. intros Hd Hc Hle.
  destruct (reportAndFinish_lookup s spellId c Hc) as [Hr _].
  split; [done|].
  rewrite startCooldown_body at 1. rewrite Hd.
  unfold isOnCooldown, isAvailable. rewrite Hc. cbn.
  apply Z.ltb_ge in Hle. rewrite Hle.
  unfold bind, exec. destruct (reportAndFinish spellId s) as [[]]; done.
Qed.

(** *** Queries *)

Lemma isOnCooldown_true s spellId :
  isOnCooldown s spellId = true <->
  exists c, _currentCooldowns s !! spellId = Some c.
Proof.
  unfold isOnCooldown.
  destruct (_ !! _) as [c|]; split; try done; [by exists c | by intros [? ?]].
Qed.

Lemma isOnCooldown_false s spellId :
  isOnCooldown s spellId = false <-> _currentCooldowns s !! spellId = None.
Proof.
  unfold isOnCooldown. by destruct (_ !! _).
Qed.

Lemma isAvailable_tracked s spellId c :
  _currentCooldowns s !! spellId = Some c ->
  isAvailable s spellId = true <->
  charges c < getMaxCharges castEfficiency spellId.
Proof.
  intros Hc. unfold isAvailable. rewrite Hc. cbn.
  destruct (Z.ltb_spec (charges c) (getMaxCharges castEfficiency spellId));
    split; (done || lia).
Qed.

(** *** Finishing a cooldown *)

(** C4. On a tracked spell [finishCooldown] returns normally.  With one
    charge on cooldown, or with [resetAllCharges], the record is deleted.
    Otherwise the record loses one charge and [refreshCooldown] runs on it,
    so the store holds the record re-armed by [refreshCooldown]: with a
    configured duration [d] its [expectedEnd] is the current timestamp
    plus [d].  From two charges the spell stays on cooldown with one
    charge, and finishing it once more removes the record. *)
Theorem finishCooldown_spec s spellId resetAllCharges c :
  _currentCooldowns s !! spellId = Some c ->
  let s1 := exec (finishCooldown spellId resetAllCharges) s in
  fst (finishCooldown spellId resetAllCharges s) = Return tt /\
  (charges c = 1 \/ resetAllCharges = true ->
   _currentCooldowns s1 = delete spellId (_currentCooldowns s)) /\
  (charges c <> 1 -> resetAllCharges = false ->
   finishCooldown spellId resetAllCharges s =
     (refreshCooldown spellId None ;;
      console_write (LogCooldownFinished spellId) ;;
      triggerEvent finishcooldown spellId)
       (set_cooldowns (insert spellId (uncharged c)) s) /\
   _currentCooldowns s1 =
     <[spellId := rearmed (currentTimestamp s)
                    (getExpectedCooldownDuration castEfficiency spellId)
                    (uncharged c)]> (_currentCooldowns s) /\
   forall d,
     getExpectedCooldownDuration castEfficiency spellId = Some d ->
     d <> 0 ->
     _currentCooldowns s1 !! spellId =
       Some (mkCooldown (start c) (currentTimestamp s + d) (charges c - 1))) /\
  (charges c = 2 -> resetAllCharges = false ->
   isOnCooldown s1 spellId = true /\
   (exists c1, _currentCooldowns s1 !! spellId = Some c1 /\ charges c1 = 1) /\
   fst (finishCooldown spellId false s1) = Return tt /\
   isOnCooldown (exec (finishCooldown spellId false) s1) spellId = false).
Proof.
  intros Hc s1.
  destruct (finishCooldown_lookup s spellId resetAllCharges c Hc)
    as [Hret Hl].
  fold s1 in Hl.
  assert (Hstore : charges c <> 1 -> resetAllCharges = false ->
    _currentCooldowns s1 =
      <[spellId := rearmed (currentTimestamp s)
                     (getExpectedCooldownDuration castEfficiency spellId)
                     (uncharged c)]> (_currentCooldowns s)).
  { intros Hne ->. subst s1. unfold exec.
    rewrite (finishCooldown_tracked _ _ _ _ Hc).
    apply Z.eqb_neq in Hne. rewrite Hne. cbn. unfold bind at 1.
    erewrite refreshCooldown_tracked
      by (unfold set_cooldowns; cbn; apply lookup_insert_eq).
    unfold rearmed, js_or. cbn.
    destruct (nonzero _); unfold_m; cbn; by rewrite ?insert_insert_eq. }
  split; [done|]. split; [|split].
  - intros Hdel. subst s1. unfold exec.
    rewrite (finishCooldown_tracked _ _ _ _ Hc).
    assert ((charges c =? 1) || resetAllCharges = true) as ->; [|done].
    destruct Hdel as [-> | ->]; [done|]. apply orb_true_r.
  - intros Hne Hreset. split; [|split].
    + rewrite (finishCooldown_tracked _ _ _ _ Hc).
      apply Z.eqb_neq in Hne. by rewrite Hne, Hreset.
    + by apply Hstore.
    + intros d Hd Hd0. rewrite Hstore, lookup_insert_eq by done.
      unfold rearmed, nonzero, truthy. rewrite Hd.
      apply Z.eqb_neq in Hd0. by rewrite Hd0.
  - intros H2 ->. rewrite H2 in Hl. cbn in Hl.
    set (c1 := rearmed _ _ _) in Hl.
    assert (Hc1 : charges c1 = 1).
    { subst c1. unfold rearmed, uncharged. destruct (nonzero _); cbn; lia. }
    destruct (finishCooldown_lookup s1 spellId false c1 Hl) as [Hret2 Hl2].
    rewrite Hc1 in Hl2. cbn in Hl2.
    split; [by apply isOnCooldown_true; exists c1|].
    split; [by exists c1|]. split; [done|].
    by apply isOnCooldown_false.
Qed.

(** The whole state [finishCooldown] leaves on a tracked spell. *)
Lemma finishCooldown_state s spellId resetAllCharges c :
  _currentCooldowns s !! spellId = Some c ->
  finishCooldown spellId resetAllCharges s =
    (Return tt,
     mkState (currentTimestamp s)
       (partial_alter
          (fun _ => finished (currentTimestamp s) spellId resetAllCharges c)
          spellId (_currentCooldowns s))
       (triggered s ++ finishNotes spellId resetAllCharges c)
       (console s ++ finishLines spellId resetAllCharges c)).
Proof.
  intros Hc. rewrite (finishCooldown_tracked _ _ _ _ Hc).
  unfold finished, finishNotes, finishLines.
  destruct ((charges c =? 1) || resetAllCharges); [done|].
  unfold bind at 1.
  erewrite refreshCooldown_tracked
    by (unfold set_cooldowns; cbn; apply lookup_insert_eq).
  unfold rearmed, js_or. cbn.
  destruct (nonzero _); unfold_m; cbn.
  - rewrite insert_insert_eq, <- !app_assoc. done.
  - rewrite <- !app_assoc. done.
Qed.

Lemma startCooldown_returns s spellId o :
  fst (startCooldown spellId o s) = Return tt.
Proof.
  revert s. apply (saturation_ind spellId). intros s IH.
  rewrite startCooldown_body.
  destruct (nonzero _); [|done].
  unfold isOnCooldown, isAvailable, getCooldown, modifyCooldown in *.
  destruct (_currentCooldowns s !! spellId) as [c|] eqn:Hc; cbn.
  - destruct (charges c <? _) eqn:Hlt.
    + unfold_m. rewrite Hc. cbn. by rewrite lookup_insert_eq.
    + specialize (IH eq_refl eq_refl). unfold bind, exec in *.
      destruct (reportAndFinish_lookup s spellId c Hc) as [Hr _].
      destruct (reportAndFinish spellId s) as [[]]; done.
  - unfold_m. cbn. by rewrite lookup_insert_eq.
Qed.

Lemma resolved_configured spellId d :
  getExpectedCooldownDuration castEfficiency spellId = Some d ->
  d <> 0 ->
  resolved spellId None = Some d.
Proof.
  intros Hd Hd0. unfold resolved, js_or, nonzero, truthy. cbn. rewrite Hd.
  apply Z.eqb_neq in Hd0. by rewrite Hd0.
Qed.

Lemma isAvailable_false s spellId c :
  _currentCooldowns s !! spellId = Some c ->
  isAvailable s spellId = false <->
  getMaxCharges castEfficiency spellId <= charges c.
Proof.
  intros Hc. unfold isAvailable. rewrite Hc. cbn.
  destruct (Z.ltb_spec (charges c) (getMaxCharges castEfficiency spellId));
    split; (done || lia).
Qed.

(** A cast on a spell holding exactly its maximum leaves it holding the
    maximum. *)
Lemma startCooldown_at_maximum s spellId o d c :
  resolved spellId o = Some d ->
  _currentCooldowns s !! spellId = Some c ->
  charges c = getMaxCharges castEfficiency spellId ->
  exists c',
    _currentCooldowns (exec (startCooldown spellId o) s) !! spellId
      = Some c' /\
    charges c' = charges c.
Proof.
  intros Hd Hc Hmax.
  destruct (startCooldown_retry s spellId _ d c Hd Hc) as [_ Hretry];
    [lia|].
  destruct (reportAndFinish_lookup s spellId c Hc) as [_ Hl].
  unfold exec at 1. rewrite Hretry.
  destruct (Z.eqb_spec (charges c) 1) as [H1|H1].
  - erewrite startCooldown_free by done. cbn.
    rewrite lookup_insert_eq. eexists. split; [done|]. cbn. lia.
  - erewrite startCooldown_spare; [| done | exact Hl |].
    + cbn. rewrite lookup_insert_eq. eexists. split; [done|].
      unfold rearmed, uncharged. destruct (nonzero _); cbn; lia.
    + unfold rearmed, uncharged. destruct (nonzero _); cbn; lia.
Qed.

(** *** A cast on a saturated spell *)

(** C1 as the code has it.  When a duration resolves and the spell is on
    cooldown with no charge available, [startCooldown] writes the error on
    the console and calls [finishCooldown] without [resetAllCharges]: the
    record is removed when it held one charge, and otherwise loses one
    charge and is re-armed.  [startCooldown] then runs again with the same
    arguments, and the whole call returns normally.  A record that held
    exactly the configured maximum holds it again afterwards. *)
Theorem startCooldown_saturated_recovers s spellId overrideDurationMs d c :
  resolved spellId overrideDurationMs = Some d ->
  _currentCooldowns s !! spellId = Some c ->
  isAvailable s spellId = false ->
  let s1 := exec (reportAndFinish spellId) s in
  reportAndFinish spellId s =
    finishCooldown spellId false
      (exec (console_write
               (ErrorCastWhileOnCooldown spellId
                  (currentTimestamp s - start c)
                  (Some (expectedEnd c - currentTimestamp s))
                  (expectedEnd c - start c))) s) /\
  fst (reportAndFinish spellId s) = Return tt /\
  _currentCooldowns s1 !! spellId =
    finished (currentTimestamp s) spellId false c /\
  (charges c = 1 -> isOnCooldown s1 spellId = false) /\
  (charges c <> 1 -> isOnCooldown s1 spellId = true) /\
  startCooldown spellId overrideDurationMs s =
    startCooldown spellId overrideDurationMs s1 /\
  fst (startCooldown spellId overrideDurationMs s) = Return tt /\
  (charges c = getMaxCharges castEfficiency spellId ->
   exists c',
     _currentCooldowns (exec (startCooldown spellId overrideDurationMs) s)
       !! spellId = Some c' /\
     charges c' = charges c).
Proof.
  intros Hd Hc Hav s1.
  assert (Hle : getMaxCharges castEfficiency spellId <= charges c)
    by (by apply (isAvailable_false s)).
  destruct (startCooldown_retry s spellId _ d c Hd Hc Hle) as [Hr Hretry].
  destruct (reportAndFinish_lookup s spellId c Hc) as [_ Hl].
  fold s1 in Hretry, Hl.
  assert (Hfin : _currentCooldowns s1 !! spellId =
                 finished (currentTimestamp s) spellId false c)
    by (unfold finished; by rewrite orb_false_r).
  split.
  { rewrite (reportAndFinish_tracked _ _ _ Hc).
    unfold cooldownRemaining. by rewrite Hc. }
  split; [done|]. split; [done|]. split.
  { intros H1. apply isOnCooldown_false. rewrite Hl, H1. done. }
  split.
  { intros H1. apply isOnCooldown_true. rewrite Hl.
    apply Z.eqb_neq in H1. rewrite H1. by eexists. }
  split; [done|]. split; [apply startCooldown_returns|].
  intros Hmax. by apply (startCooldown_at_maximum s spellId _ d c).
Qed.

(** *** Casting several times in a row *)

Lemma startCooldown_one_more s spellId d c :
  resolved spellId None = Some d ->
  _currentCooldowns s !! spellId = Some c ->
  1 <= charges c <= getMaxCharges castEfficiency spellId ->
  exists c',
    _currentCooldowns (exec (startCooldown spellId None) s) !! spellId
      = Some c' /\
    charges c' =
      Z.min (charges c + 1) (getMaxCharges castEfficiency spellId).
Proof.
  intros Hd Hc [H1 HM].
  destruct (Z.eq_dec (charges c) (getMaxCharges castEfficiency spellId))
    as [Heq|Hne].
  - destruct (startCooldown_at_maximum s spellId None d c Hd Hc Heq)
      as (c' & Hc' & Hch).
    exists c'. split; [done|]. lia.
  - unfold exec. erewrite startCooldown_spare by (done || lia). cbn.
    rewrite lookup_insert_eq. eexists. split; [done|]. cbn. lia.
Qed.

Lemma startCooldownTimes_charges s spellId d n :
  resolved spellId None = Some d ->
  1 <= getMaxCharges castEfficiency spellId ->
  _currentCooldowns s !! spellId = None ->
  exists c,
    _currentCooldowns (startCooldownTimes (S n) spellId s) !! spellId
      = Some c /\
    charges c =
      Z.min (Z.of_nat (S n)) (getMaxCharges castEfficiency spellId).
Proof.
  intros Hd HM Hoff. induction n as [|n (c & Hc & Hch)].
  - cbn. unfold exec. erewrite startCooldown_free by done. cbn.
    rewrite lookup_insert_eq. eexists. split; [done|]. cbn. lia.
  - change (startCooldownTimes (S (S n)) spellId s)
      with (exec (startCooldown spellId None)
              (startCooldownTimes (S n) spellId s)).
    destruct (startCooldown_one_more _ spellId d c Hd Hc) as (c' & Hc' & Hch');
      [lia|].
    exists c'. split; [done|]. lia.
Qed.

(** C5. Take a spell with a configured duration and [M >= 1] configured
    charges that is not on cooldown.  After [n >= 1] calls of
    [startCooldown] in a row its record holds [min n M] charges.  After [M]
    calls no charge is available, so the next call writes the error, calls
    [finishCooldown] and runs again; it returns normally and leaves [M]
    charges. *)
Theorem startCooldown_repeated s spellId d n :
  getExpectedCooldownDuration castEfficiency spellId = Some d ->
  d <> 0 ->
  1 <= getMaxCharges castEfficiency spellId ->
  _currentCooldowns s !! spellId = None ->
  (1 <= n)%nat ->
  let M := getMaxCharges castEfficiency spellId in
  (exists c,
     _currentCooldowns (startCooldownTimes n spellId s) !! spellId = Some c /\
     charges c = Z.min (Z.of_nat n) M) /\
  let sM := startCooldownTimes (Z.to_nat M) spellId s in
  isOnCooldown sM spellId = true /\
  isAvailable sM spellId = false /\
  startCooldown spellId None sM =
    startCooldown spellId None (exec (reportAndFinish spellId) sM) /\
  fst (startCooldown spellId None sM) = Return tt /\
  exists c,
    _currentCooldowns (exec (startCooldown spellId None) sM) !! spellId
      = Some c /\
    charges c = M.
Proof.
  intros Hcat Hd0 HM Hoff Hn M.
  pose proof (resolved_configured spellId d Hcat Hd0) as Hd.
  split.
  { destruct n as [|n]; [lia|].
    by apply (startCooldownTimes_charges s spellId d n). }
  intros sM.
  destruct (startCooldownTimes_charges s spellId d (Z.to_nat M - 1) Hd HM Hoff)
    as (c & Hc & Hch).
  replace (S (Z.to_nat M - 1)) with (Z.to_nat M) in Hc, Hch by (subst M; lia).
  fold sM in Hc. assert (HcM : charges c = M) by lia.
  split; [apply isOnCooldown_true; by exists c|].
  split; [apply (isAvailable_false _ _ _ Hc); fold M; lia|].
  split; [apply (startCooldown_retry sM spellId None d c Hd Hc);
          fold M; lia|].
  split; [apply startCooldown_returns|].
  destruct (startCooldown_at_maximum sM spellId None d c Hd Hc HcM)
    as (c' & Hc' & Hch').
  exists c'. split; [done|]. lia.
Qed.

(** *** Reducing a cooldown *)

(** C2 as the code has it.  Off cooldown [reduceCooldown] returns [null]
    and changes nothing.  On cooldown, with [remaining] the time left: when
    [remaining < durationMs] the call is [finishCooldown] and returns
    [remaining]; when [durationMs <= remaining] (equality included) the
    record stays, its [expectedEnd] moves back by [durationMs], and
    [durationMs] is returned. *)
Theorem reduceCooldown_spec s spellId durationMs :
  (isOnCooldown s spellId = false ->
   reduceCooldown spellId durationMs s = (Return None, s)) /\
  (forall c,
     _currentCooldowns s !! spellId = Some c ->
     let remaining := expectedEnd c - currentTimestamp s in
     (remaining < durationMs ->
      fst (finishCooldown spellId false s) = Return tt /\
      reduceCooldown spellId durationMs s =
        (Return (Some remaining), exec (finishCooldown spellId false) s)) /\
     (durationMs <= remaining ->
      reduceCooldown spellId durationMs s =
        (Return (Some durationMs),
         set_cooldowns
           (insert spellId
              (mkCooldown (start c) (expectedEnd c - durationMs) (charges c)))
           s))).
Proof.
  split.
  - intros Hoff. unfold reduceCooldown. by rewrite Hoff.
  - intros c Hc remaining.
    assert (Hon : isOnCooldown s spellId = true)
      by (apply isOnCooldown_true; eauto).
    unfold reduceCooldown, cooldownRemaining. rewrite Hon, Hc. cbn.
    fold remaining. split; intros Hcmp.
    + destruct (finishCooldown_lookup s spellId false c Hc) as [Hret _].
      split; [done|]. apply Z.ltb_lt in Hcmp. rewrite Hcmp.
      unfold bind, ret, exec.
      destruct (finishCooldown spellId false s) as [[] ?]; [done|].
      discriminate.
    + apply Z.ltb_ge in Hcmp. rewrite Hcmp. unfold_m. by rewrite Hc.
Qed.

(** *** The sweep *)

Lemma objectKeys_spec (m : gmap N Cooldown) :
  NoDup (objectKeys m) /\
  forall k, k ∈ objectKeys m <-> is_Some (m !! k).
Proof.
  unfold objectKeys.
  assert (Hp : merge_sort N.le (map fst (map_to_list m))
               ≡ₚ map fst (map_to_list m)) by apply merge_sort_Permutation.
  split.
  - rewrite Hp. apply NoDup_fst_map_to_list.
  - intros k. rewrite Hp, list_elem_of_fmap. split.
    + intros [[k' c] [-> Hin]]. apply elem_of_map_to_list in Hin. by eexists.
    + intros [c Hc]. exists (k, c). split; [done|].
      by apply elem_of_map_to_list.
Qed.

Lemma sweepOne_tracked ts s spellId c :
  _currentCooldowns s !! spellId = Some c ->
  sweepOne ts spellId s =
    (Return tt,
     if js_gt ts (expectedEnd c) then
       mkState (currentTimestamp s)
         (partial_alter
            (fun _ => finished (currentTimestamp s) spellId false c)
            spellId (_currentCooldowns s))
         (triggered s ++ finishNotes spellId false c)
         (console s ++ finishLines spellId false c)
     else s).
Proof.
  intros Hc. unfold sweepOne, bind, getCooldown. rewrite Hc.
  destruct (js_gt ts (expectedEnd c)); [|done].
  by apply finishCooldown_state.
Qed.

Lemma forEach_sweepOne ts (l : list N) : forall s,
  NoDup l ->
  (forall k, k ∈ l -> is_Some (_currentCooldowns s !! k)) ->
  exists s',
    forEach l (sweepOne ts) s = (Return tt, s') /\
    currentTimestamp s' = currentTimestamp s /\
    (forall k,
       _currentCooldowns s' !! k =
         if decide (k ∈ l) then
           _currentCooldowns s !! k ≫= swept ts (currentTimestamp s) k
         else _currentCooldowns s !! k) /\
    triggered s' =
      triggered s ++
      concat (map (fun k => match _currentCooldowns s !! k with
                            | Some c => sweepNotes ts k c
                            | None => []
                            end) l).
Proof.
  induction l as [|x l IH]; intros s Hnd Htr.
  - exists s. cbn. rewrite app_nil_r. repeat split; done.
  - apply NoDup_cons in Hnd as [Hx Hnd].
    destruct (Htr x) as [c Hc]; [set_solver|].
    cbn [forEach]. unfold bind at 1.
    rewrite (sweepOne_tracked ts s x c Hc).
    set (s1 := if js_gt ts (expectedEnd c) then _ else s).
    assert (Hnow : currentTimestamp s1 = currentTimestamp s)
      by (subst s1; by destruct (js_gt _ _)).
    assert (Hx1 : _currentCooldowns s1 !! x = swept ts (currentTimestamp s) x c).
    { subst s1. unfold swept. destruct (js_gt _ _); [|done].
      cbn. by rewrite lookup_partial_alter_eq. }
    assert (Hother : forall k, k ≠ x ->
              _currentCooldowns s1 !! k = _currentCooldowns s !! k).
    { intros k Hk. subst s1. destruct (js_gt _ _); [|done].
      cbn. by rewrite lookup_partial_alter_ne. }
    assert (Hnotes : triggered s1 = triggered s ++ sweepNotes ts x c).
    { subst s1. unfold sweepNotes.
      destruct (js_gt _ _); [done|]. by rewrite app_nil_r. }
    destruct (IH s1 Hnd) as (s' & Hrun & Hnow' & Hlk & Hnt).
    { intros k Hk. rewrite Hother by set_solver. apply Htr. set_solver. }
    exists s'. split; [done|]. split; [congruence|]. split.
    + intros k. rewrite Hlk, Hnow.
      destruct (decide (k = x)) as [->|Hk].
      * rewrite decide_False by done.
        rewrite decide_True by apply list_elem_of_here.
        by rewrite Hx1, Hc.
      * rewrite Hother by done.
        destruct (decide (k ∈ l)) as [Hin|Hin].
        -- by rewrite decide_True by (by apply list_elem_of_further).
        -- rewrite decide_False; [done|].
           intros [?|?]%elem_of_cons; done.
    + rewrite Hnt, Hnotes, <- app_assoc. f_equal. cbn. rewrite Hc. f_equal.
      f_equal. apply map_ext_in. intros k Hk.
      rewrite Hother; [done|]. intros ->. by apply list_elem_of_In in Hk.
Qed.

Lemma finishedSpells_finishNotes spellId r c :
  finishedSpells (finishNotes spellId r c) = [spellId].
Proof.
  unfold finishNotes.
  destruct ((charges c =? 1) || r); [done|]. by destruct (nonzero _).
Qed.

Lemma finishedSpells_app l1 l2 :
  finishedSpells (l1 ++ l2) = finishedSpells l1 ++ finishedSpells l2.
Proof. apply omap_app. Qed.

Lemma finishedSpells_sweep ts s (l : list N) :
  finishedSpells
    (concat (map (fun k => match _currentCooldowns s !! k with
                           | Some c => sweepNotes ts k c
                           | None => []
                           end) l))
  = List.filter (expired ts s) l.
Proof.
  induction l as [|k l IH]; [done|].
  cbn. rewrite finishedSpells_app, IH. unfold expired, sweepNotes.
  destruct (_currentCooldowns s !! k) as [c|]; [|done].
  destruct (js_gt ts (expectedEnd c)); [|done].
  by rewrite finishedSpells_finishNotes.
Qed.

(** C3. The sweep of an event with timestamp [t] returns normally.  A
    record whose [expectedEnd] is below [t] becomes what [finishCooldown]
    leaves of it; a record with [t <= expectedEnd], equality included, is
    kept as it is; no record appears.  The spells reported by a
    [finishcooldown] notification during the sweep are, in ascending
    order, exactly the tracked spells with [expectedEnd < t]. *)
Theorem on_event_sweep s event t :
  timestamp event = Some t ->
  exists s',
    on_event (Some event) s = (Return tt, s') /\
    (forall k c,
       _currentCooldowns s !! k = Some c ->
       expectedEnd c < t ->
       _currentCooldowns s' !! k =
         _currentCooldowns (exec (finishCooldown k false) s) !! k) /\
    (forall k c,
       _currentCooldowns s !! k = Some c ->
       t <= expectedEnd c ->
       _currentCooldowns s' !! k = Some c) /\
    (forall k,
       _currentCooldowns s !! k = None -> _currentCooldowns s' !! k = None) /\
    exists notes,
      triggered s' = triggered s ++ notes /\
      finishedSpells notes =
        List.filter
          (fun k => match _currentCooldowns s !! k with
                    | Some c => expectedEnd c <? t
                    | None => false
                    end)
          (objectKeys (_currentCooldowns s)).
Proof.
  intros Ht. unfold on_event. rewrite Ht.
  destruct (objectKeys_spec (_currentCooldowns s)) as [Hnd Hkeys].
  destruct (forEach_sweepOne (Some t) _ s Hnd) as (s' & Hrun & _ & Hlk & Hnt).
  { intros k Hk. by apply Hkeys. }
  exists s'. split; [done|]. repeat split.
  - intros k c Hc Hlt. rewrite Hlk.
    rewrite decide_True by (apply Hkeys; by eexists).
    rewrite Hc. cbn. unfold swept. cbn.
    apply Z.ltb_lt in Hlt. rewrite Hlt.
    unfold exec. by rewrite (finishCooldown_state _ _ _ _ Hc); cbn;
      rewrite lookup_partial_alter_eq.
  - intros k c Hc Hle. rewrite Hlk.
    rewrite decide_True by (apply Hkeys; by eexists).
    rewrite Hc. cbn. unfold swept. cbn.
    apply Z.ltb_ge in Hle. by rewrite Hle.
  - intros k Hc. rewrite Hlk, Hc. by destruct (decide _).
  - eexists. split; [exact Hnt|]. apply finishedSpells_sweep.
Qed.

(** *** The store invariant *)

Lemma sound_step_same started s s' :
  _currentCooldowns s' = _currentCooldowns s -> sound_step started s s'.
Proof.
  intros Heq. unfold sound_step, charges_in_range. rewrite Heq. done.
Qed.

Lemma sound_step_trans started s1 s2 s3 :
  sound_step started s1 s2 -> sound_step started s2 s3 ->
  sound_step started s1 s3.
Proof. intros [? ?] [? ?]. split; eauto. Qed.

Lemma sound_step_weaken started s s' :
  sound_step None s s' -> sound_step started s s'.
Proof. intros [? Habs]. split; [done|]. intros k _. by apply Habs. Qed.

Lemma sound_step_alter started s s' k (o : option Cooldown) :
  _currentCooldowns s' = partial_alter (fun _ => o) k (_currentCooldowns s) ->
  (charges_in_range s ->
   forall c, o = Some c ->
             1 <= charges c <= getMaxCharges castEfficiency k) ->
  (forall c, o = Some c ->
             is_Some (_currentCooldowns s !! k) \/ started = Some k) ->
  sound_step started s s'.
Proof.
  intros Heq Hrange Hnew. split.
  - intros Hinv j c. rewrite Heq.
    destruct (decide (j = k)) as [->|Hj].
    + rewrite lookup_partial_alter_eq. by apply Hrange.
    + rewrite lookup_partial_alter_ne by done. apply Hinv.
  - intros j Hj Hoff. rewrite Heq.
    destruct (decide (j = k)) as [->|Hjk].
    + rewrite lookup_partial_alter_eq. destruct o as [c|]; [|done].
      destruct (Hnew c eq_refl) as [[? ?]|?]; congruence.
    + by rewrite lookup_partial_alter_ne.
Qed.

Lemma finishCooldown_sound s spellId resetAllCharges :
  sound_step None s (exec (finishCooldown spellId resetAllCharges) s).
Proof.
  destruct (_currentCooldowns s !! spellId) as [c|] eqn:Hc.
  - unfold exec. rewrite (finishCooldown_state _ _ _ _ Hc). cbn.
    eapply sound_step_alter; [done| |by eauto].
    intros Hinv c'. unfold finished.
    destruct (Z.eqb_spec (charges c) 1); cbn; [done|].
    destruct resetAllCharges; [done|]. intros [= <-].
    specialize (Hinv _ _ Hc). unfold rearmed, uncharged.
    destruct (nonzero _); cbn; lia.
  - apply sound_step_same. unfold exec, finishCooldown, isOnCooldown.
    by rewrite Hc.
Qed.

Lemma refreshCooldown_sound s spellId o :
  sound_step None s (exec (refreshCooldown spellId o) s).
Proof.
  destruct (_currentCooldowns s !! spellId) as [c|] eqn:Hc.
  - unfold exec. rewrite (refreshCooldown_tracked _ _ _ _ Hc).
    destruct (nonzero _) as [d|]; [|by apply sound_step_same].
    eapply (sound_step_alter _ _ _ spellId (Some _)); [done| |by eauto].
    intros Hinv c' [= <-]. cbn. by apply (Hinv _ _ Hc).
  - apply sound_step_same. unfold exec, refreshCooldown, isOnCooldown.
    by rewrite Hc.
Qed.

Lemma reportAndFinish_sound s spellId :
  sound_step None s (exec (reportAndFinish spellId) s).
Proof.
  destruct (_currentCooldowns s !! spellId) as [c|] eqn:Hc.
  - unfold exec. rewrite (reportAndFinish_tracked _ _ _ Hc).
    eapply sound_step_trans; [|apply finishCooldown_sound].
    by apply sound_step_same.
  - apply sound_step_same.
    unfold exec, reportAndFinish, bind, getCooldown. by rewrite Hc.
Qed.

Lemma startCooldown_sound s spellId o :
  1 <= getMaxCharges castEfficiency spellId ->
  sound_step (Some spellId) s (exec (startCooldown spellId o) s).
Proof.
  intros HM. revert s. apply (saturation_ind spellId). intros s IH.
  destruct (resolved spellId o) as [d|] eqn:Hd.
  2: { apply sound_step_same. unfold exec.
       by rewrite startCooldown_unresolved. }
  destruct (_currentCooldowns s !! spellId) as [c|] eqn:Hc.
  2: { unfold exec. erewrite startCooldown_free by done.
       eapply (sound_step_alter _ _ _ spellId (Some _)); [done| |by eauto].
       intros _ c' [= <-]. cbn. lia. }
  destruct (Z.lt_ge_cases (charges c) (getMaxCharges castEfficiency spellId))
    as [Hlt|Hge].
  - unfold exec. erewrite startCooldown_spare by done.
    eapply (sound_step_alter _ _ _ spellId (Some _)); [done| |by eauto].
    intros Hinv c' [= <-]. cbn. specialize (Hinv _ _ Hc). lia.
  - destruct (startCooldown_retry s spellId o d c Hd Hc Hge)
      as [_ Hretry].
    unfold exec at 1. rewrite Hretry.
    eapply sound_step_trans.
    + apply sound_step_weaken, reportAndFinish_sound.
    + apply IH.
      * apply isOnCooldown_true. by exists c.
      * by apply (isAvailable_false _ _ _ Hc).
Qed.

Lemma reduceCooldown_sound s spellId durationMs :
  sound_step None s (exec (reduceCooldown spellId durationMs) s).
Proof.
  unfold exec, reduceCooldown, isOnCooldown, cooldownRemaining.
  destruct (_currentCooldowns s !! spellId) as [c|] eqn:Hc; cbn;
    [|by apply sound_step_same].
  destruct (_ <? _).
  - pose proof (finishCooldown_sound s spellId false) as Hf.
    unfold exec, bind, ret in *.
    by destruct (finishCooldown spellId false s) as [[] ?].
  - unfold_m. rewrite Hc. cbn.
    eapply (sound_step_alter _ _ _ spellId (Some _)); [done| |by eauto].
    intros Hinv c' [= <-]. cbn. by apply (Hinv _ _ Hc).
Qed.

Lemma on_event_sound s event :
  sound_step None s (exec (on_event event) s).
Proof.
  destruct event as [event|]; [|by apply sound_step_same].
  unfold exec, on_event.
  destruct (objectKeys_spec (_currentCooldowns s)) as [Hnd Hkeys].
  destruct (forEach_sweepOne (timestamp event) _ s Hnd)
    as (s' & -> & _ & Hlk & _).
  { intros k Hk. by apply Hkeys. }
  cbn. split.
  - intros Hinv k c'. rewrite Hlk.
    destruct (decide _); [|by apply Hinv].
    destruct (_currentCooldowns s !! k) as [c|] eqn:Hc; [|done].
    cbn. unfold swept, finished. specialize (Hinv _ _ Hc).
    destruct (js_gt _ _); [|by intros [= <-]].
    rewrite orb_false_r. destruct (Z.eqb_spec (charges c) 1); [done|].
    intros [= <-]. unfold rearmed, uncharged.
    destruct (nonzero _); cbn; lia.
  - intros k _ Hoff. rewrite Hlk, Hoff. by destruct (decide _).
Qed.

Lemma call_sound s c :
  (forall k, 1 <= getMaxCharges castEfficiency k) ->
  (charges_in_range s -> charges_in_range (call c s)) /\
  (forall k,
     starts k c = false ->
     _currentCooldowns s !! k = None ->
     _currentCooldowns (call c s) !! k = None).
Proof.
  intros HM.
  assert (Hany : forall s', sound_step None s s' ->
    (charges_in_range s -> charges_in_range s') /\
    (forall k, _currentCooldowns s !! k = None ->
               _currentCooldowns s' !! k = None)).
  { intros s' [? Habs]. split; [done|]. intros k. by apply Habs. }
  destruct c as [x o|x r|x o|x d|e|e|now]; cbn [call starts].
  - destruct (startCooldown_sound s x o (HM x)) as [? Habs].
    split; [done|]. intros k Hk. apply Habs.
    apply bool_decide_eq_false in Hk. congruence.
  - destruct (Hany _ (finishCooldown_sound s x r)). split; eauto.
  - destruct (Hany _ (refreshCooldown_sound s x o)). split; eauto.
  - destruct (Hany _ (reduceCooldown_sound s x d)). split; eauto.
  - unfold on_byPlayer_cast. destruct (ability_guid e) as [x|].
    + destruct (startCooldown_sound s x None (HM x)) as [? Habs].
      split; [done|]. intros k Hk. apply Habs.
      apply bool_decide_eq_false in Hk. congruence.
    + split; [done|]. by intros.
  - destruct (Hany _ (on_event_sound s e)). split; eauto.
  - split; [done|]. by intros.
Qed.

(** C9. With a catalog that gives every spell at least one charge, any
    sequence of calls, started in a state whose records hold between one
    charge and the configured maximum, ends in such a state.  A spell that
    is not on cooldown at the start and is never handed to [startCooldown]
    (directly or by a cast) is not on cooldown at the end, and its
    remaining cooldown is [null]. *)
Theorem run_keeps_invariant s (cs : list Call) :
  (forall k, 1 <= getMaxCharges castEfficiency k) ->
  charges_in_range s ->
  charges_in_range (run cs s) /\
  forall spellId,
    isOnCooldown s spellId = false ->
    forallb (fun c => negb (starts spellId c)) cs = true ->
    isOnCooldown (run cs s) spellId = false /\
    cooldownRemaining (run cs s) spellId = None.
Proof.
  intros HM. revert s. induction cs as [|c cs IH]; intros s Hinv.
  - cbn. split; [done|]. intros k Hoff _. split; [done|].
    apply isOnCooldown_false in Hoff. unfold cooldownRemaining.
    by rewrite Hoff.
  - change (run (c :: cs) s) with (run cs (call c s)).
    destruct (call_sound s c HM) as [Hinv' Habs].
    destruct (IH (call c s) (Hinv' Hinv)) as [Hend Hnever].
    split; [done|]. intros k Hoff Hcs. cbn in Hcs.
    apply andb_true_iff in Hcs as [Hc Hcs]. apply negb_true_iff in Hc.
    apply Hnever; [|done].
    apply isOnCooldown_false, Habs; [done|]. by apply isOnCooldown_false.
Qed.

(** *** Calls on a spell that is not on cooldown *)

(** C7. [finishCooldown] and [refreshCooldown] on a spell that is not on
    cooldown throw their error, whatever the other argument is, and leave
    the state (store, clock, notifications, console) as it was. *)
Theorem not_on_cooldown_throws s spellId resetAllCharges overrideDurationMs :
  isOnCooldown s spellId = false ->
  finishCooldown spellId resetAllCharges s
    = (Throw (FinishNotOnCooldown spellId), s) /\
  refreshCooldown spellId overrideDurationMs s
    = (Throw (RefreshNotOnCooldown spellId), s).
Proof.
  intros Hoff. unfold finishCooldown, refreshCooldown.
  by rewrite Hoff.
Qed.

(** C8. When neither the override nor the catalog gives a duration
    ([null], [undefined] or [0]), [startCooldown] returns normally; the
    store and the published notifications are those of before, and only a
    warning is written on the console. *)
Theorem startCooldown_without_duration s spellId overrideDurationMs :
  truthy overrideDurationMs = false ->
  truthy (getExpectedCooldownDuration castEfficiency spellId) = false ->
  fst (startCooldown spellId overrideDurationMs s) = Return tt /\
  _currentCooldowns (exec (startCooldown spellId overrideDurationMs) s)
    = _currentCooldowns s /\
  triggered (exec (startCooldown spellId overrideDurationMs) s)
    = triggered s /\
  currentTimestamp (exec (startCooldown spellId overrideDurationMs) s)
    = currentTimestamp s /\
  console (exec (startCooldown spellId overrideDurationMs) s)
    = console s ++ [WarnNoCooldown spellId].
Proof.
  intros Ho Hcat. unfold exec.
  rewrite startCooldown_unresolved; [done|].
  unfold resolved, nonzero, js_or. by rewrite Ho, Hcat.
Qed.

(** *** An override of zero *)

Lemma js_or_zero (v : option Z) : js_or (Some 0) v = js_or None v.
Proof. done. Qed.

(** C10. An override of [0] is falsy, so [startCooldown] and
    [refreshCooldown] return the same completion and leave the same state
    as without an override. *)
Theorem override_zero_is_no_override s spellId :
  startCooldown spellId (Some 0) s = startCooldown spellId None s /\
  refreshCooldown spellId (Some 0) s = refreshCooldown spellId None s.
Proof.
  split; [|done].
  revert s. apply (saturation_ind spellId). intros s IH.
  rewrite (startCooldown_body spellId (Some 0)),
    (startCooldown_body spellId None), js_or_zero.
  destruct (nonzero _); [|done].
  destruct (isOnCooldown s spellId) eqn:Hon; [|done].
  destruct (isAvailable s spellId) eqn:Hav; [done|]. cbn.
  specialize (IH eq_refl eq_refl). unfold bind, exec in *.
  by destruct (reportAndFinish spellId s) as [[]].
Qed.

(** ** Further properties of the module *)

(** The whole state after the diagnostic and [finishCooldown] of the last
    branch of [startCooldown]. *)
Lemma reportAndFinish_state s spellId c :
  _currentCooldowns s !! spellId = Some c ->
  reportAndFinish spellId s =
    (Return tt,
     mkState (currentTimestamp s)
       (partial_alter
          (fun _ => finished (currentTimestamp s) spellId false c)
          spellId (_currentCooldowns s))
       (triggered s ++ finishNotes spellId false c)
       ((console s ++
         [ErrorCastWhileOnCooldown spellId
            (currentTimestamp s - start c)
            (Some (expectedEnd c - currentTimestamp s))
            (expectedEnd c - start c)])
        ++ finishLines spellId false c)).
Proof.
  intros Hc. rewrite (reportAndFinish_tracked _ _ _ Hc).
  erewrite finishCooldown_state by exact Hc.
  unfold cooldownRemaining. by rewrite Hc.
Qed.

Lemma forEach_sweepOne_total ts s (l : list N) :
  NoDup l ->
  (forall k, k ∈ l -> is_Some (_currentCooldowns s !! k)) ->
  fst (forEach l (sweepOne ts) s) = Return tt.
Proof.
  intros Hnd Htr.
  destruct (forEach_sweepOne ts l s Hnd Htr) as (s' & -> & _). done.
Qed.

(** *** Which calls can throw *)

(** Of the calls the parser and the other modules make, only
    [finishCooldown] and [refreshCooldown] can throw: [startCooldown],
    [reduceCooldown], the sweep of any event and the handler of a cast
    event that names its spell return normally in every state. *)
Theorem calls_that_never_throw s spellId overrideDurationMs durationMs
    (event : option Event) (cast : Event) :
  fst (startCooldown spellId overrideDurationMs s) = Return tt /\
  (exists consumed,
     fst (reduceCooldown spellId durationMs s) = Return consumed) /\
  fst (on_event event s) = Return tt /\
  (ability_guid cast = Some spellId ->
   fst (on_byPlayer_cast cast s) = Return tt).
Proof.
  split; [apply startCooldown_returns|]. split; [|split].
  - unfold reduceCooldown, isOnCooldown, cooldownRemaining.
    destruct (_currentCooldowns s !! spellId) as [c|] eqn:Hc; cbn;
      [|by eexists].
    destruct (_ <? _).
    + unfold bind, ret. rewrite (finishCooldown_state _ _ _ _ Hc).
      by eexists.
    + unfold_m. rewrite Hc. by eexists.
  - destruct event as [event|]; [|done]. unfold on_event.
    destruct (objectKeys_spec (_currentCooldowns s)) as [Hnd Hkeys].
    apply forEach_sweepOne_total; [done|]. intros k Hk. by apply Hkeys.
  - intros Hguid. unfold on_byPlayer_cast. rewrite Hguid.
    apply startCooldown_returns.
Qed.

(** *** What a cast leaves behind *)

(** Whenever a duration resolves, [startCooldown] leaves the spell on
    cooldown, whatever the state before (free, with a spare charge, or
    saturated), and the last notification it publishes is [startcooldown]
    or [startcooldowncharge] for that spell. *)
Theorem startCooldown_leaves_on_cooldown s spellId overrideDurationMs d :
  resolved spellId overrideDurationMs = Some d ->
  let s' := exec (startCooldown spellId overrideDurationMs) s in
  isOnCooldown s' spellId = true /\
  (last (triggered s') = Some (startcooldown, spellId) \/
   last (triggered s') = Some (startcooldowncharge, spellId)).
Proof.
  intros Hd. revert s. apply (saturation_ind spellId). intros s IH. cbn zeta.
  destruct (_currentCooldowns s !! spellId) as [c|] eqn:Hc.
  2: { unfold exec. erewrite startCooldown_free by done. cbn. split.
       - apply isOnCooldown_true. eexists. apply lookup_insert_eq.
       - left. apply last_snoc. }
  destruct (Z.lt_ge_cases (charges c) (getMaxCharges castEfficiency spellId))
    as [Hlt|Hge].
  - unfold exec. erewrite startCooldown_spare by done. cbn. split.
    + apply isOnCooldown_true. eexists. apply lookup_insert_eq.
    + right. apply last_snoc.
  - destruct (startCooldown_retry s spellId _ d c Hd Hc Hge) as [_ Hretry].
    unfold exec at 1 2 3. rewrite Hretry. apply IH.
    + apply isOnCooldown_true. by exists c.
    + by apply (isAvailable_false _ _ _ Hc).
Qed.


(** *** Other spells and the clock *)

Lemma startCooldown_frame s spellId o :
  currentTimestamp (exec (startCooldown spellId o) s) = currentTimestamp s /\
  forall k, k <> spellId ->
    _currentCooldowns (exec (startCooldown spellId o) s) !! k
      = _currentCooldowns s !! k.
Proof.
  revert s. apply (saturation_ind spellId). intros s IH.
  destruct (resolved spellId o) as [d|] eqn:Hd.
  2: { unfold exec. by rewrite startCooldown_unresolved. }
  destruct (_currentCooldowns s !! spellId) as [c|] eqn:Hc.
  2: { unfold exec. erewrite startCooldown_free by done. cbn.
       split; [done|]. intros k Hk. by rewrite lookup_insert_ne. }
  destruct (Z.lt_ge_cases (charges c) (getMaxCharges castEfficiency spellId))
    as [Hlt|Hge].
  - unfold exec. erewrite startCooldown_spare by done. cbn.
    split; [done|]. intros k Hk. by rewrite lookup_insert_ne.
  - destruct (startCooldown_retry s spellId o d c Hd Hc Hge) as [_ Hretry].
    unfold exec at 1 2. rewrite Hretry.
    destruct IH as [Hnow Hother].
    + apply isOnCooldown_true. by exists c.
    + by apply (isAvailable_false _ _ _ Hc).
    + unfold exec in *. rewrite (reportAndFinish_state _ _ _ Hc) in *.
      cbn in *. split; [done|]. intros k Hk.
      by rewrite Hother, lookup_partial_alter_ne.
Qed.

Lemma finishCooldown_frame s spellId r :
  currentTimestamp (exec (finishCooldown spellId r) s) = currentTimestamp s /\
  forall k, k <> spellId ->
    _currentCooldowns (exec (finishCooldown spellId r) s) !! k
      = _currentCooldowns s !! k.
Proof.
  unfold exec. destruct (_currentCooldowns s !! spellId) as [c|] eqn:Hc.
  - rewrite (finishCooldown_state _ _ _ _ Hc). cbn. split; [done|].
    intros k Hk. by rewrite lookup_partial_alter_ne.
  - unfold finishCooldown, isOnCooldown. by rewrite Hc.
Qed.

Lemma refreshCooldown_frame s spellId o :
  currentTimestamp (exec (refreshCooldown spellId o) s) = currentTimestamp s /\
  forall k, k <> spellId ->
    _currentCooldowns (exec (refreshCooldown spellId o) s) !! k
      = _currentCooldowns s !! k.
Proof.
  unfold exec. destruct (_currentCooldowns s !! spellId) as [c|] eqn:Hc.
  - rewrite (refreshCooldown_tracked _ _ _ _ Hc).
    destruct (nonzero _); [|done]. cbn. split; [done|].
    intros k Hk. by rewrite lookup_insert_ne.
  - unfold refreshCooldown, isOnCooldown. by rewrite Hc.
Qed.

Lemma reduceCooldown_frame s spellId d :
  currentTimestamp (exec (reduceCooldown spellId d) s) = currentTimestamp s /\
  forall k, k <> spellId ->
    _currentCooldowns (exec (reduceCooldown spellId d) s) !! k
      = _currentCooldowns s !! k.
Proof.
  unfold exec, reduceCooldown, isOnCooldown, cooldownRemaining.
  destruct (_currentCooldowns s !! spellId) as [c|] eqn:Hc; cbn; [|done].
  destruct (_ <? _).
  - unfold bind, ret. rewrite (finishCooldown_state _ _ _ _ Hc). cbn.
    split; [done|]. intros k Hk. by rewrite lookup_partial_alter_ne.
  - unfold_m. rewrite Hc. cbn. split; [done|].
    intros k Hk. by rewrite lookup_insert_ne.
Qed.

(** A call made for one spell ([startCooldown], [finishCooldown],
    [refreshCooldown], [reduceCooldown]) leaves the record of every other
    spell as it was, thrown or not, and never moves the clock. *)
Theorem calls_touch_one_spell s spellId other o r d :
  other <> spellId ->
  let unchanged (s' : State) :=
    _currentCooldowns s' !! other = _currentCooldowns s !! other /\
    currentTimestamp s' = currentTimestamp s in
  unchanged (exec (startCooldown spellId o) s) /\
  unchanged (exec (finishCooldown spellId r) s) /\
  unchanged (exec (refreshCooldown spellId o) s) /\
  unchanged (exec (reduceCooldown spellId d) s).
Proof.
  intros Hne unchanged. subst unchanged. cbn beta.
  destruct (startCooldown_frame s spellId o) as [? ?].
  destruct (finishCooldown_frame s spellId r) as [? ?].
  destruct (refreshCooldown_frame s spellId o) as [? ?].
  destruct (reduceCooldown_frame s spellId d) as [? ?].
  repeat split; auto.
Qed.

(** *** Refreshing *)


(** Refreshing twice in a row leaves the store that refreshing once
    leaves, in every state and for every override. *)
Theorem refreshCooldown_idempotent s spellId overrideDurationMs :
  let s1 := exec (refreshCooldown spellId overrideDurationMs) s in
  _currentCooldowns (exec (refreshCooldown spellId overrideDurationMs) s1)
    = _currentCooldowns s1.
Proof.
  intros s1. subst s1. unfold exec.
  destruct (_currentCooldowns s !! spellId) as [c|] eqn:Hc.
  - rewrite (refreshCooldown_tracked _ _ _ _ Hc).
    destruct (nonzero _) as [d|] eqn:Hd; cbn.
    + erewrite refreshCooldown_tracked by (cbn; apply lookup_insert_eq).
      rewrite Hd. cbn. by rewrite insert_insert_eq.
    + erewrite refreshCooldown_tracked by (cbn; exact Hc). by rewrite Hd.
  - assert (Hthrow : forall s0, _currentCooldowns s0 !! spellId = None ->
      refreshCooldown spellId overrideDurationMs s0
        = (Throw (RefreshNotOnCooldown spellId), s0)).
    { intros s0 H0. unfold refreshCooldown, isOnCooldown. by rewrite H0. }
    rewrite (Hthrow s Hc). cbn. by rewrite (Hthrow s Hc).
Qed.

(** *** Reducing *)



(** *** Resetting all charges *)

(** With [resetAllCharges] a tracked spell is taken off cooldown whatever
    its charges: the record is removed, the spell is available, and the
    only notification is [finishcooldown] (no timer is re-armed). *)
Theorem finishCooldown_resets_all s spellId c :
  _currentCooldowns s !! spellId = Some c ->
  let s' := exec (finishCooldown spellId true) s in
  fst (finishCooldown spellId true s) = Return tt /\
  isOnCooldown s' spellId = false /\
  isAvailable s' spellId = true /\
  cooldownRemaining s' spellId = None /\
  triggered s' = triggered s ++ [(finishcooldown, spellId)].
Proof.
  intros Hc s'. subst s'.
  unfold exec, isOnCooldown, isAvailable, cooldownRemaining.
  rewrite (finishCooldown_state _ _ _ _ Hc). cbn.
  unfold finished, finishNotes. rewrite orb_true_r.
  by rewrite lookup_partial_alter_eq.
Qed.

(** *** Starting and finishing *)

(** Starting the cooldown of a free spell and finishing it brings the
    store back to what it was, and publishes [startcooldown] followed by
    [finishcooldown]. *)
Theorem start_then_finish_restores s spellId overrideDurationMs r d :
  resolved spellId overrideDurationMs = Some d ->
  _currentCooldowns s !! spellId = None ->
  let s' := exec (finishCooldown spellId r)
              (exec (startCooldown spellId overrideDurationMs) s) in
  _currentCooldowns s' = _currentCooldowns s /\
  triggered s' =
    triggered s ++ [(startcooldown, spellId); (finishcooldown, spellId)].
Proof.
  intros Hd Hoff s'. subst s'. unfold exec.
  erewrite startCooldown_free by done. cbn.
  erewrite finishCooldown_state by (cbn; apply lookup_insert_eq). cbn.
  unfold finished, finishNotes. cbn. split.
  - exact (delete_insert_id (_currentCooldowns s) spellId _ Hoff).
  - by rewrite <- app_assoc.
Qed.

(** Using a spare charge and finishing one charge brings [charges] and
    [start] back, but not the timer: [expectedEnd] is re-armed from the
    current timestamp with the catalog duration. *)
Theorem charge_then_finish_rearms s spellId overrideDurationMs c d d' :
  resolved spellId overrideDurationMs = Some d ->
  _currentCooldowns s !! spellId = Some c ->
  1 <= charges c < getMaxCharges castEfficiency spellId ->
  getExpectedCooldownDuration castEfficiency spellId = Some d' ->
  d' <> 0 ->
  _currentCooldowns
    (exec (finishCooldown spellId false)
       (exec (startCooldown spellId overrideDurationMs) s)) !! spellId
  = Some (mkCooldown (start c) (currentTimestamp s + d') (charges c)).
Proof.
  intros Hd Hc [H1 HM] Hcat Hd'. unfold exec.
  erewrite startCooldown_spare by done. cbn.
  erewrite finishCooldown_state by (cbn; apply lookup_insert_eq). cbn.
  rewrite lookup_partial_alter_eq. unfold finished, rearmed, uncharged.
  cbn. destruct (Z.eqb_spec (charges c + 1) 1) as [?|_]; [lia|]. cbn.
  unfold nonzero, truthy. rewrite Hcat.
  apply Z.eqb_neq in Hd'. rewrite Hd'. cbn. do 2 f_equal. lia.
Qed.

(** *** Events that finish nothing *)

Lemma forEach_sweepOne_idle ts (l : list N) s :
  (forall k, k ∈ l ->
     exists c, _currentCooldowns s !! k = Some c /\
               js_gt ts (expectedEnd c) = false) ->
  forEach l (sweepOne ts) s = (Return tt, s).
Proof.
  induction l as [|x l IH]; intros Hall; [done|].
  destruct (Hall x) as (c & Hc & Hgt); [apply list_elem_of_here|].
  cbn [forEach]. unfold bind at 1.
  rewrite (sweepOne_tracked ts s x c Hc), Hgt.
  apply IH. intros k Hk. apply Hall. by apply list_elem_of_further.
Qed.

(** An event without payload, or without [timestamp], changes nothing
    (store, notifications, console), whatever is being tracked. *)
Theorem on_event_without_timestamp s (event : option Event) :
  (forall e, event = Some e -> timestamp e = None) ->
  on_event event s = (Return tt, s).
Proof.
  intros Hts. destruct event as [e|]; [|done].
  unfold on_event. rewrite (Hts e eq_refl).
  destruct (objectKeys_spec (_currentCooldowns s)) as [_ Hkeys].
  apply forEach_sweepOne_idle. intros k Hk.
  apply Hkeys in Hk as [c Hc]. by exists c.
Qed.

(** When every tracked spell has a catalog duration that carries past the
    event's timestamp from the current time, the sweep leaves no record
    that is overdue at that timestamp, and sweeping the same event again
    changes nothing. *)
Theorem on_event_settles s event t :
  timestamp event = Some t ->
  (forall k c,
     _currentCooldowns s !! k = Some c ->
     exists d,
       getExpectedCooldownDuration castEfficiency k = Some d /\
       d <> 0 /\ t <= currentTimestamp s + d) ->
  exists s',
    on_event (Some event) s = (Return tt, s') /\
    (forall k c', _currentCooldowns s' !! k = Some c' -> t <= expectedEnd c') /\
    on_event (Some event) s' = (Return tt, s').
Proof.
  intros Ht Hcat. unfold on_event. rewrite Ht.
  destruct (objectKeys_spec (_currentCooldowns s)) as [Hnd Hkeys].
  destruct (forEach_sweepOne (Some t) _ s Hnd) as (s' & Hrun & _ & Hlk & _).
  { intros k Hk. by apply Hkeys. }
  assert (Hdue : forall k c',
            _currentCooldowns s' !! k = Some c' -> t <= expectedEnd c').
  { intros k c'. rewrite Hlk.
    destruct (_currentCooldowns s !! k) as [c|] eqn:Hc;
      [|by destruct (decide _)].
    rewrite decide_True by (apply Hkeys; by eexists).
    destruct (Hcat k c Hc) as (d & Hd & Hd0 & Hle).
    cbn. unfold swept, finished, rearmed, nonzero, truthy. cbn.
    rewrite Hd. apply Z.eqb_neq in Hd0. rewrite Hd0. cbn.
    destruct (Z.ltb_spec (expectedEnd c) t); [|intros [= <-]; done].
    rewrite orb_false_r. destruct (charges c =? 1); [done|].
    intros [= <-]. cbn. done. }
  exists s'. split; [done|]. split; [done|].
  destruct (objectKeys_spec (_currentCooldowns s')) as [_ Hkeys'].
  apply forEach_sweepOne_idle. intros k Hk.
  apply Hkeys' in Hk as [c' Hc']. exists c'. split; [done|].
  cbn. apply Z.ltb_ge. by apply (Hdue k).
Qed.

(** *** What only a cast can do *)

Lemma shrinks_refl o : shrinks o o.
Proof. destruct o as [c|]; [|done]. exists c. repeat split; (done || lia). Qed.

Lemma finishCooldown_shrinks s spellId r k :
  shrinks (_currentCooldowns s !! k)
          (_currentCooldowns (exec (finishCooldown spellId r) s) !! k).
Proof.
  destruct (decide (k = spellId)) as [->|Hk].
  2: { destruct (finishCooldown_frame s spellId r) as [_ Hother].
       rewrite Hother by done. apply shrinks_refl. }
  unfold exec. destruct (_currentCooldowns s !! spellId) as [c|] eqn:Hc.
  - rewrite (finishCooldown_state _ _ _ _ Hc). cbn.
    rewrite lookup_partial_alter_eq. unfold finished.
    destruct (Z.eqb_spec (charges c) 1); cbn; [done|].
    destruct r; [done|]. cbn. exists c.
    unfold rearmed, uncharged. destruct (nonzero _); cbn;
      repeat split; (done || lia).
  - unfold finishCooldown, isOnCooldown. rewrite Hc. cbn. by rewrite Hc.
Qed.

Lemma refreshCooldown_shrinks s spellId o k :
  shrinks (_currentCooldowns s !! k)
          (_currentCooldowns (exec (refreshCooldown spellId o) s) !! k).
Proof.
  destruct (decide (k = spellId)) as [->|Hk].
  2: { destruct (refreshCooldown_frame s spellId o) as [_ Hother].
       rewrite Hother by done. apply shrinks_refl. }
  unfold exec. destruct (_currentCooldowns s !! spellId) as [c|] eqn:Hc.
  - rewrite (refreshCooldown_tracked _ _ _ _ Hc).
    destruct (nonzero _); cbn.
    + rewrite lookup_insert_eq. exists c. repeat split; (done || lia).
    + rewrite Hc. apply shrinks_refl.
  - unfold refreshCooldown, isOnCooldown. rewrite Hc. cbn. by rewrite Hc.
Qed.

Lemma reduceCooldown_shrinks s spellId d k :
  shrinks (_currentCooldowns s !! k)
          (_currentCooldowns (exec (reduceCooldown spellId d) s) !! k).
Proof.
  destruct (decide (k = spellId)) as [->|Hk].
  2: { destruct (reduceCooldown_frame s spellId d) as [_ Hother].
       rewrite Hother by done. apply shrinks_refl. }
  pose proof (finishCooldown_shrinks s spellId false spellId) as Hfin.
  unfold exec, reduceCooldown, isOnCooldown, cooldownRemaining in *.
  destruct (_currentCooldowns s !! spellId) as [c|] eqn:Hc; cbn;
    [|by rewrite Hc].
  destruct (_ <? _).
  - unfold bind, ret. by destruct (finishCooldown spellId false s) as [[] ?].
  - unfold_m. rewrite Hc. cbn. rewrite lookup_insert_eq.
    exists c. repeat split; (done || lia).
Qed.

Lemma on_event_shrinks s event k :
  shrinks (_currentCooldowns s !! k)
          (_currentCooldowns (exec (on_event event) s) !! k).
Proof.
  destruct event as [event|]; [|apply shrinks_refl].
  unfold exec, on_event.
  destruct (objectKeys_spec (_currentCooldowns s)) as [Hnd Hkeys].
  destruct (forEach_sweepOne (timestamp event) _ s Hnd)
    as (s' & -> & _ & Hlk & _).
  { intros j Hj. by apply Hkeys. }
  cbn. rewrite Hlk. destruct (decide _); [|apply shrinks_refl].
  destruct (_currentCooldowns s !! k) as [c|] eqn:Hc; [|done].
  cbn. unfold swept, finished.
  destruct (js_gt _ _); [|apply shrinks_refl].
  rewrite orb_false_r. destruct (Z.eqb_spec (charges c) 1); [done|].
  exists c. unfold rearmed, uncharged. destruct (nonzero _); cbn;
    repeat split; (done || lia).
Qed.

(** Only a cast of the spell itself ([startCooldown], [on_byPlayer_cast])
    can create its record, add a charge to it or give it a new [start]:
    under every other call the record goes or stays, with the same
    [start] and no more charges than before. *)
Theorem only_a_cast_adds_charges s (c : Call) spellId :
  starts spellId c = false ->
  match _currentCooldowns (call c s) !! spellId with
  | None => True
  | Some after =>
      exists before,
        _currentCooldowns s !! spellId = Some before /\
        start after = start before /\
        charges after <= charges before
  end.
Proof.
  intros Hc.
  assert (Hsh : shrinks (_currentCooldowns s !! spellId)
                        (_currentCooldowns (call c s) !! spellId)).
  { destruct c as [x o|x r|x o|x d|e|e|now]; cbn [call starts] in *.
    - apply bool_decide_eq_false in Hc.
      destruct (startCooldown_frame s x o) as [_ Hother].
      rewrite Hother by done. apply shrinks_refl.
    - apply finishCooldown_shrinks.
    - apply refreshCooldown_shrinks.
    - apply reduceCooldown_shrinks.
    - unfold on_byPlayer_cast.
      destruct (ability_guid e) as [x|]; [|apply shrinks_refl].
      apply bool_decide_eq_false in Hc.
      destruct (startCooldown_frame s x None) as [_ Hother].
      rewrite Hother by congruence. apply shrinks_refl.
    - apply on_event_shrinks.
    - apply shrinks_refl. }
  unfold shrinks in Hsh.
  destruct (_currentCooldowns (call c s) !! spellId) as [after|]; [|done].
  destruct Hsh as (before & ? & ? & ? & _). by exists before.
Qed.

(** *** Charges stay positive *)

Lemma shrinks_positive s s' :
  (forall k, shrinks (_currentCooldowns s !! k) (_currentCooldowns s' !! k)) ->
  positive_charges s -> positive_charges s'.
Proof.
  intros Hsh Hpos k c' Hc'. specialize (Hsh k). rewrite Hc' in Hsh.
  destruct Hsh as (c & Hc & _ & _ & Hone). apply Hone. by apply (Hpos k).
Qed.

Lemma startCooldown_positive s spellId o :
  positive_charges s ->
  positive_charges (exec (startCooldown spellId o) s).
Proof.
  revert s.
  apply (saturation_ind spellId
           (fun s => positive_charges s ->
                     positive_charges (exec (startCooldown spellId o) s))).
  intros s IH Hpos.
  assert (Hins : forall c' s',
    _currentCooldowns s' = <[spellId := c']> (_currentCooldowns s) ->
    1 <= charges c' -> positive_charges s').
  { intros c' s' Heq H1 k c0. rewrite Heq.
    destruct (decide (k = spellId)) as [->|Hk].
    - rewrite lookup_insert_eq. by intros [= <-].
    - rewrite lookup_insert_ne by done. exact (Hpos k c0). }
  destruct (resolved spellId o) as [d|] eqn:Hd.
  2: { unfold exec. by rewrite startCooldown_unresolved. }
  destruct (_currentCooldowns s !! spellId) as [c|] eqn:Hc.
  2: { unfold exec. erewrite startCooldown_free by done.
       by eapply Hins. }
  destruct (Z.lt_ge_cases (charges c) (getMaxCharges castEfficiency spellId))
    as [Hlt|Hge].
  - unfold exec. erewrite startCooldown_spare by done.
    eapply Hins; [done|]. cbn. specialize (Hpos _ _ Hc). lia.
  - destruct (startCooldown_retry s spellId o d c Hd Hc Hge) as [_ Hretry].
    unfold exec at 1. rewrite Hretry. apply IH.
    + apply isOnCooldown_true. by exists c.
    + by apply (isAvailable_false _ _ _ Hc).
    + unfold exec. rewrite (reportAndFinish_tracked _ _ _ Hc).
      eapply shrinks_positive; [|exact Hpos]. intros k.
      apply (finishCooldown_shrinks (exec (console_write _) s)).
Qed.

(** For every catalog, also one that gives a spell no charge at all, every
    sequence of calls keeps at least one charge in every record: what the
    catalog bounds is only the upper end. *)
Theorem run_keeps_charges_positive s (cs : list Call) :
  positive_charges s -> positive_charges (run cs s).
Proof.
  revert s. induction cs as [|c cs IH]; intros s Hpos; [done|].
  change (run (c :: cs) s) with (run cs (call c s)). apply IH.
  destruct c as [x o|x r|x o|x d|e|e|now]; cbn [call].
  - by apply startCooldown_positive.
  - eapply shrinks_positive; [|exact Hpos].
    intros k. apply finishCooldown_shrinks.
  - eapply shrinks_positive; [|exact Hpos].
    intros k. apply refreshCooldown_shrinks.
  - eapply shrinks_positive; [|exact Hpos].
    intros k. apply reduceCooldown_shrinks.
  - unfold on_byPlayer_cast. destruct (ability_guid e) as [x|]; [|done].
    by apply startCooldown_positive.
  - eapply shrinks_positive; [|exact Hpos].
    intros k. apply on_event_shrinks.
  - done.
Qed.

(** *** What a cast on a saturated spell publishes *)

(** A cast on a spell that holds exactly its configured maximum publishes
    the notifications of one [finishCooldown] and then one start: after
    [finishcooldown] comes [startcooldown] when the record held one charge,
    and [startcooldowncharge] otherwise. *)
Theorem saturated_cast_notifications s spellId overrideDurationMs d c :
  resolved spellId overrideDurationMs = Some d ->
  _currentCooldowns s !! spellId = Some c ->
  charges c = getMaxCharges castEfficiency spellId ->
  triggered (exec (startCooldown spellId overrideDurationMs) s) =
    triggered s ++ finishNotes spellId false c ++
    [(if charges c =? 1 then startcooldown else startcooldowncharge,
      spellId)].
Proof.
  intros Hd Hc Hmax.
  destruct (startCooldown_retry s spellId _ d c Hd Hc) as [_ Hretry]; [lia|].
  unfold exec in *. rewrite Hretry, (reportAndFinish_state _ _ _ Hc).
  destruct (Z.eqb_spec (charges c) 1) as [H1|H1].
  - erewrite startCooldown_free; [| done |].
    + cbn. by rewrite <- app_assoc.
    + cbn. rewrite lookup_partial_alter_eq. unfold finished.
      apply Z.eqb_eq in H1. by rewrite H1.
  - erewrite startCooldown_spare; [| done | |].
    + cbn. by rewrite <- app_assoc.
    + cbn. rewrite lookup_partial_alter_eq. unfold finished.
      apply Z.eqb_neq in H1. by rewrite H1.
    + unfold rearmed, uncharged. destruct (nonzero _); cbn; lia.
Qed.

End CooldownUsable.

(** ** Availability *)

(** C6. A spell that is not on cooldown is available; a spell on cooldown
    is available exactly when the configured maximum exceeds the charges
    of its record; and some spell is on cooldown and available at once, so
    [isAvailable] is not the negation of [isOnCooldown]. *)
Theorem isAvailable_policy castEfficiency s spellId :
  (isOnCooldown s spellId = false ->
   isAvailable castEfficiency s spellId = true) /\
  (forall c,
     _currentCooldowns s !! spellId = Some c ->
     isOnCooldown s spellId = true /\
     (isAvailable castEfficiency s spellId = true <->
      getMaxCharges castEfficiency spellId > charges c)) /\
  exists castEfficiency' s' spellId',
    isOnCooldown s' spellId' = true /\
    isAvailable castEfficiency' s' spellId' = true.
Proof.
  split; [|split].
  - intros Hoff. apply isOnCooldown_false in Hoff.
    unfold isAvailable. by rewrite Hoff.
  - intros c Hc. split; [apply isOnCooldown_true; by exists c|].
    rewrite (isAvailable_tracked _ _ _ _ Hc). lia.
  - exists (mkCastEfficiency (fun _ => 2) (fun _ => Some 1000)),
      (mkState 0 {[ 7%N := mkCooldown 0 1000 1 ]} [] []), 7%N.
    by vm_compute.
Qed.

Example scenario_end :
  _currentCooldowns (run twoCharges scenario (idle 0)) !! 7%N
    = Some (mkCooldown 0 2001 1) /\
  isOnCooldown (run twoCharges scenario (idle 0)) 7 = true /\
  isAvailable twoCharges (run twoCharges scenario (idle 0)) 7 = true.
Proof. by vm_compute. Qed.

(** ** The claims on concrete inputs *)

(** C1: with two charges on cooldown out of two, the record survives the
    call of [finishCooldown] and keeps its [start]; removing the record
    before the retry would have given a fresh record with one charge. *)
Lemma startCooldown_saturated_keeps_record :
  let s := tracking 100 7 (mkCooldown 0 1000 2) in
  isAvailable twoCharges s 7 = false /\
  isOnCooldown (exec (reportAndFinish twoCharges 7) s) 7 = true /\
  _currentCooldowns (exec (startCooldown twoCharges 7 None) s) !! 7%N
    = Some (mkCooldown 0 1100 2) /\
  _currentCooldowns
    (exec (startCooldown twoCharges 7 None) (set_cooldowns (delete 7%N) s))
    !! 7%N
    = Some (mkCooldown 100 1100 1).
Proof. by vm_compute. Qed.

Lemma startCooldown_saturated_recovers_witness :
  let s := tracking 100 7 (mkCooldown 0 1000 1) in
  isOnCooldown (exec (reportAndFinish oneCharge 7) s) 7 = false /\
  startCooldown oneCharge 7 None s =
    startCooldown oneCharge 7 None (exec (reportAndFinish oneCharge 7) s) /\
  fst (startCooldown oneCharge 7 None s) = Return tt.
Proof.
  intros s.
  destruct (startCooldown_saturated_recovers oneCharge s 7 None 1000
              (mkCooldown 0 1000 1))
    as (_ & _ & _ & Hoff & _ & Hretry & Hret & _);
    [reflexivity | reflexivity | reflexivity |].
  split; [apply Hoff; reflexivity|]. split; [exact Hretry | exact Hret].
Defined.

(** C2: reducing by exactly the remaining time keeps the record, with its
    [expectedEnd] at the current timestamp, where [finishCooldown] would
    have removed it. *)
Lemma reduceCooldown_exact_remaining_keeps_record :
  let s := tracking 400 7 (mkCooldown 0 1000 1) in
  cooldownRemaining s 7 = Some 600 /\
  reduceCooldown oneCharge 7 600 s
    = (Return (Some 600), tracking 400 7 (mkCooldown 0 400 1)) /\
  isOnCooldown (exec (reduceCooldown oneCharge 7 600) s) 7 = true /\
  isOnCooldown (exec (finishCooldown oneCharge 7 false) s) 7 = false.
Proof. by vm_compute. Qed.

Lemma reduceCooldown_spec_witness :
  let s := tracking 400 7 (mkCooldown 0 1000 1) in
  reduceCooldown oneCharge 8 50 s = (Return None, s) /\
  reduceCooldown oneCharge 7 601 s
    = (Return (Some 600), exec (finishCooldown oneCharge 7 false) s) /\
  reduceCooldown oneCharge 7 600 s
    = (Return (Some 600),
       set_cooldowns (insert 7%N (mkCooldown 0 400 1)) s).
Proof.
  intros s.
  destruct (reduceCooldown_spec oneCharge s 8 50) as [Hoff _].
  destruct (reduceCooldown_spec oneCharge s 7 601) as [_ Hon].
  destruct (Hon (mkCooldown 0 1000 1) eq_refl) as [Hfin _].
  destruct (reduceCooldown_spec oneCharge s 7 600) as [_ Hon'].
  destruct (Hon' (mkCooldown 0 1000 1) eq_refl) as [_ Hback].
  split; [apply Hoff; reflexivity|].
  split; [apply Hfin; reflexivity | apply Hback; reflexivity].
Defined.

(** C3: an event at the very millisecond a cooldown is due keeps it, an
    event one millisecond later finishes it. *)
Lemma on_event_sweep_witness :
  let s := tracking 1000 7 (mkCooldown 0 1000 1) in
  (exists s',
     on_event oneCharge (Some (mkEvent (Some 1000) None)) s = (Return tt, s')
     /\ _currentCooldowns s' !! 7%N = Some (mkCooldown 0 1000 1)) /\
  (exists s',
     on_event oneCharge (Some (mkEvent (Some 1001) None)) s = (Return tt, s')
     /\ _currentCooldowns s' !! 7%N = None).
Proof.
  intros s. split.
  - destruct (on_event_sweep oneCharge s (mkEvent (Some 1000) None) 1000
                eq_refl) as (s' & Hrun & _ & Hkeep & _).
    exists s'. split; [exact Hrun|].
    apply Hkeep; [reflexivity | simpl; lia].
  - destruct (on_event_sweep oneCharge s (mkEvent (Some 1001) None) 1001
                eq_refl) as (s' & Hrun & Hfin & _).
    exists s'. split; [exact Hrun|].
    rewrite (Hfin 7%N (mkCooldown 0 1000 1)); [reflexivity | reflexivity |].
    simpl; lia.
Defined.

(** C4: from two charges one finish leaves one charge with the timer
    re-armed, and the next finish removes the record. *)
Lemma finishCooldown_spec_witness :
  let s := tracking 1001 7 (mkCooldown 0 1000 2) in
  let s1 := exec (finishCooldown twoCharges 7 false) s in
  _currentCooldowns s1 !! 7%N = Some (mkCooldown 0 2001 1) /\
  isOnCooldown s1 7 = true /\
  isOnCooldown (exec (finishCooldown twoCharges 7 false) s1) 7 = false.
Proof.
  intros s s1.
  destruct (finishCooldown_spec twoCharges s 7 false (mkCooldown 0 1000 2)
              eq_refl) as (_ & _ & Hrearm & Htwo).
  destruct Hrearm as (_ & _ & Hd); [simpl; lia | reflexivity |].
  destruct Htwo as (Hon & _ & _ & Hoff); [reflexivity | reflexivity |].
  split; [apply (Hd 1000); [reflexivity | lia]|].
  split; [exact Hon | exact Hoff].
Defined.

(** C5: three casts in a row of a two-charge spell leave two charges. *)
Lemma startCooldown_repeated_witness :
  (exists c,
     _currentCooldowns (startCooldownTimes twoCharges 3 7 (idle 0)) !! 7%N
       = Some c /\
     charges c = 2) /\
  isAvailable twoCharges (startCooldownTimes twoCharges 2 7 (idle 0)) 7
    = false.
Proof.
  destruct (startCooldown_repeated twoCharges (idle 0) 7 1000 3)
    as [Hmin (_ & Hav & _)];
    [reflexivity | lia | simpl; lia | reflexivity | lia |].
  split; [exact Hmin | exact Hav].
Defined.

(** C6: with one of two charges on cooldown the spell is on cooldown and
    available. *)
Lemma isAvailable_policy_witness :
  let s := tracking 0 7 (mkCooldown 0 1000 1) in
  isAvailable twoCharges s 8 = true /\
  isOnCooldown s 7 = true /\
  isAvailable twoCharges s 7 = true.
Proof.
  intros s.
  destruct (isAvailable_policy twoCharges s 8) as [Hfree _].
  destruct (isAvailable_policy twoCharges s 7) as (_ & Hon & _).
  destruct (Hon (mkCooldown 0 1000 1) eq_refl) as [Hcd Hav].
  split; [apply Hfree; reflexivity|].
  split; [exact Hcd | apply Hav; simpl; lia].
Defined.

(** C7: finishing or refreshing a spell of a fresh module throws. *)
Lemma not_on_cooldown_throws_witness :
  finishCooldown oneCharge 7 false (idle 0)
    = (Throw (FinishNotOnCooldown 7), idle 0) /\
  refreshCooldown oneCharge 7 None (idle 0)
    = (Throw (RefreshNotOnCooldown 7), idle 0).
Proof.
  apply (not_on_cooldown_throws oneCharge (idle 0) 7 false None).
  reflexivity.
Defined.

(** C8: starting the cooldown of a spell that has none changes neither
    the store nor the notifications. *)
Lemma startCooldown_without_duration_witness :
  let s := tracking 0 7 (mkCooldown 0 1000 1) in
  fst (startCooldown noCooldowns 8 None s) = Return tt /\
  _currentCooldowns (exec (startCooldown noCooldowns 8 None) s)
    = _currentCooldowns s /\
  triggered (exec (startCooldown noCooldowns 8 None) s) = triggered s.
Proof.
  intros s.
  destruct (startCooldown_without_duration noCooldowns s 8 None)
    as (Hret & Hstore & Hnotes & _); [reflexivity | reflexivity |].
  split; [exact Hret|]. split; [exact Hstore | exact Hnotes].
Defined.

(** C9: the scenario keeps the records in range, and a spell that is
    never cast stays off cooldown. *)
Lemma run_keeps_invariant_witness :
  charges_in_range twoCharges (run twoCharges scenario (idle 0)) /\
  isOnCooldown (run twoCharges scenario (idle 0)) 8 = false /\
  cooldownRemaining (run twoCharges scenario (idle 0)) 8 = None.
Proof.
  destruct (run_keeps_invariant twoCharges (idle 0) scenario)
    as [Hinv Hnever].
  - intros k. simpl. lia.
  - intros k c Hc. discriminate Hc.
  - split; [exact Hinv|]. apply Hnever; reflexivity.
Defined.

(** ** The further properties on concrete inputs *)

Lemma calls_that_never_throw_witness :
  let s := tracking 100 7 (mkCooldown 0 1000 2) in
  fst (startCooldown twoCharges 7 None s) = Return tt /\
  fst (on_byPlayer_cast twoCharges (mkEvent (Some 100) (Some 7%N)) s)
    = Return tt.
Proof.
  intros s.
  destruct (calls_that_never_throw twoCharges s 7 None 0 None
              (mkEvent (Some 100) (Some 7%N))) as (Hstart & _ & _ & Hcast).
  split; [exact Hstart | apply Hcast; reflexivity].
Defined.

Lemma startCooldown_leaves_on_cooldown_witness :
  isOnCooldown
    (exec (startCooldown twoCharges 7 None)
       (tracking 100 7 (mkCooldown 0 1000 2))) 7 = true.
Proof.
  apply (startCooldown_leaves_on_cooldown twoCharges
           (tracking 100 7 (mkCooldown 0 1000 2)) 7 None 1000).
  reflexivity.
Defined.


Lemma calls_touch_one_spell_witness :
  let s := tracking 100 7 (mkCooldown 0 1000 1) in
  _currentCooldowns (exec (startCooldown oneCharge 8 None) s) !! 7%N
    = Some (mkCooldown 0 1000 1) /\
  _currentCooldowns (exec (reduceCooldown oneCharge 8 5000) s) !! 7%N
    = Some (mkCooldown 0 1000 1).
Proof.
  intros s.
  destruct (calls_touch_one_spell oneCharge s 8 7 None false 5000)
    as ([Hstart _] & _ & _ & [Hreduce _]); [discriminate|].
  split; [exact Hstart | exact Hreduce].
Defined.




Lemma finishCooldown_resets_all_witness :
  isOnCooldown
    (exec (finishCooldown twoCharges 7 true)
       (tracking 100 7 (mkCooldown 0 1000 2))) 7 = false.
Proof.
  apply (finishCooldown_resets_all twoCharges
           (tracking 100 7 (mkCooldown 0 1000 2)) 7 (mkCooldown 0 1000 2)).
  reflexivity.
Defined.

Lemma start_then_finish_restores_witness :
  let s := tracking 100 8 (mkCooldown 0 1000 1) in
  _currentCooldowns
    (exec (finishCooldown oneCharge 7 false)
       (exec (startCooldown oneCharge 7 None) s))
  = _currentCooldowns s.
Proof.
  intros s.
  apply (start_then_finish_restores oneCharge s 7 None false 1000);
    reflexivity.
Defined.

Lemma charge_then_finish_rearms_witness :
  _currentCooldowns
    (exec (finishCooldown twoCharges 7 false)
       (exec (startCooldown twoCharges 7 None)
          (tracking 100 7 (mkCooldown 0 1000 1)))) !! 7%N
  = Some (mkCooldown 0 1100 1).
Proof.
  apply (charge_then_finish_rearms twoCharges
           (tracking 100 7 (mkCooldown 0 1000 1)) 7 None
           (mkCooldown 0 1000 1) 1000 1000);
    [reflexivity | reflexivity | simpl; lia | reflexivity | lia].
Defined.

Lemma on_event_without_timestamp_witness :
  let s := tracking 5000 7 (mkCooldown 0 1000 1) in
  on_event oneCharge (Some (mkEvent None None)) s = (Return tt, s).
Proof.
  intros s. apply (on_event_without_timestamp oneCharge s).
  intros e [= <-]. reflexivity.
Defined.

Lemma on_event_settles_witness :
  let s := tracking 1001 7 (mkCooldown 0 1000 2) in
  exists s',
    on_event twoCharges (Some (mkEvent (Some 1001) None)) s = (Return tt, s')
    /\ on_event twoCharges (Some (mkEvent (Some 1001) None)) s'
       = (Return tt, s').
Proof.
  intros s.
  destruct (on_event_settles twoCharges s (mkEvent (Some 1001) None) 1001)
    as (s' & Hrun & _ & Hagain).
  - reflexivity.
  - intros k c _. exists 1000. repeat split; [lia | simpl; lia].
  - exists s'. split; [exact Hrun | exact Hagain].
Defined.

Lemma only_a_cast_adds_charges_witness :
  let s := tracking 1001 7 (mkCooldown 0 1000 2) in
  match
    _currentCooldowns
      (call twoCharges (CallOnEvent (Some (mkEvent (Some 1001) None))) s) !! 7%N
  with
  | None => True
  | Some after =>
      exists before,
        _currentCooldowns s !! 7%N = Some before /\
        start after = start before /\
        charges after <= charges before
  end.
Proof.
  intros s.
  apply (only_a_cast_adds_charges twoCharges s
           (CallOnEvent (Some (mkEvent (Some 1001) None))) 7).
  reflexivity.
Defined.

Lemma run_keeps_charges_positive_witness :
  positive_charges (run zeroCharges scenario (idle 0)).
Proof.
  apply (run_keeps_charges_positive zeroCharges (idle 0) scenario).
  intros k c Hc. discriminate Hc.
Defined.

Lemma saturated_cast_notifications_witness :
  triggered
    (exec (startCooldown twoCharges 7 None)
       (tracking 100 7 (mkCooldown 0 1000 2)))
  = [(refreshcooldown, 7%N); (finishcooldown, 7%N);
     (startcooldowncharge, 7%N)].
Proof.
  apply (saturated_cast_notifications twoCharges
           (tracking 100 7 (mkCooldown 0 1000 2)) 7 None 1000
           (mkCooldown 0 1000 2)); reflexivity.
Defined.
